(** * Teleport: MFA prompt race, tbot client cache and headless watcher

    A shallow embedding of three pieces of the repository:

    - [lib/client/mfa] ([GetRunOptions], [HandleMFAGoroutines]),
    - [integrations/operator/embeddedtbot/syncclient] ([Cache.Get]),
    - [lib/teleterm/daemon] ([startHeadlessWatcher], [stopHeadlessWatcher]
      and the watch loop with its pending-request registry).

    Go values are modelled as follows.  An [error] interface value is an
    [option error] ([None] is Go's [nil]); a pointer is an [option]; a
    [map[string]T] is a [gmap string T]; a [context.CancelFunc] is the
    identifier of the context it cancels, and calling it adds that
    identifier to a set of cancelled contexts; a [go f()] statement appends
    [f()] to a list of spawned goroutines without running it. *)

From Stdlib Require Import Strings.Byte.
From stdpp Require Import gmap strings list.

Local Open Scope string_scope.
Local Open Scope list_scope.

(** ** Errors: Go's [errors] and the [gravitational/trace] library *)

Module Trace.

(** The concrete error values that flow through the modelled code.
    [ErrorString] is a value made by [errors.New]: Go compares such values
    by identity, which the [id] stands for.  [TraceErr] is the wrapper
    [trace.Wrap] puts around an error (the captured stack is left out, the
    user messages are kept).  [aggregate] is [trace.aggregate], the slice
    of errors behind [trace.NewAggregate]. *)
#[warnings="-register-all"]
Inductive error : Type :=
| ErrorString (id : string)
| BadParameterError (message : string)
| CompareFailedError (message : string)
| NotFoundError (message : string)
| TraceErr (err : error) (messages : list string)
| aggregate (errs : list error).

(** [trace.Wrap(err, args...)]: [nil] stays [nil]; an error that already
    is a [trace.Error] is reused, any other one is put into a fresh
    [TraceErr]; a message, when given, is added to the user messages. *)
Definition Wrap (err : option error) (message : option string) : option error :=
  match err with
  | None => None
  | Some e =>
      let '(inner, messages) :=
        match e with
        | TraceErr inner messages => (inner, messages)
        | _ => (e, [])
        end in
      Some (TraceErr inner (messages ++ option_list message))
  end.

(** [trace.NewAggregate(errs...)]: drops the [nil] entries, returns [nil]
    when nothing is left and the wrapped [aggregate] otherwise.  A single
    error is not special-cased. *)
Definition NewAggregate (errs : list (option error)) : option error :=
  let nonNils := omap id errs in
  match nonNils with
  | [] => None
  | _ => Some (TraceErr (aggregate nonNils) [])
  end.

Definition BadParameter (message : string) : option error :=
  Some (TraceErr (BadParameterError message) []).

Definition CompareFailed (message : string) : option error :=
  Some (TraceErr (CompareFailedError message) []).

Definition NotFound (message : string) : option error :=
  Some (TraceErr (NotFoundError message) []).

(** [errors.Is(err, target)] for a target made by [errors.New], named by
    its identity: the chain of [Unwrap] is followed through [TraceErr],
    and [aggregate.Is] asks every member. *)
Fixpoint errors_Is (err : error) (target : string) : bool :=
  match err with
  | ErrorString id => bool_decide (id = target)
  | TraceErr inner _ => errors_Is inner target
  | aggregate errs => existsb (fun e => errors_Is e target) errs
  | _ => false
  end.

(** [trace.IsBadParameter], [trace.IsCompareFailed], [trace.IsNotFound]:
    the class of an error is that of the error under the wrappers. *)
Fixpoint IsBadParameter (err : error) : bool :=
  match err with
  | BadParameterError _ => true
  | TraceErr inner _ => IsBadParameter inner
  | _ => false
  end.

Fixpoint IsCompareFailed (err : error) : bool :=
  match err with
  | CompareFailedError _ => true
  | TraceErr inner _ => IsCompareFailed inner
  | _ => false
  end.

Fixpoint IsNotFound (err : error) : bool :=
  match err with
  | NotFoundError _ => true
  | TraceErr inner _ => IsNotFound inner
  | _ => false
  end.

(** [trace.IsAggregate]: is there an [aggregate] under the wrappers. *)
Fixpoint IsAggregate (err : error) : bool :=
  match err with
  | aggregate _ => true
  | TraceErr inner _ => IsAggregate inner
  | _ => false
  end.

(** [trace.Unwrap]: the error under the wrappers. *)
Fixpoint Unwrap (err : error) : error :=
  match err with
  | TraceErr inner _ => Unwrap inner
  | _ => err
  end.

End Trace.

(** ** The MFA prompt: [lib/client/mfa] *)

Module Mfa.
Import Trace.

(** Modelled from the spec: the type [wancli.AuthenticatorAttachment] is
    declared in [lib/auth/webauthncli], which is not among the files at
    hand.  The specification lists the allowed-attachment setting among
    the enumerated options of the configuration; [AttachmentAuto] is the
    value that states no preference, and [GetRunOptions] only tells it
    from the other values. *)
Inductive AuthenticatorAttachment : Type :=
| AttachmentAuto
| AttachmentCrossPlatform
| AttachmentPlatform.

#[global] Instance AuthenticatorAttachment_eq_dec : EqDecision AuthenticatorAttachment.
Proof. solve_decision. Defined.

(** Modelled from the spec: [wancli.ErrUsingNonRegisteredDevice] is
    declared in [lib/auth/webauthncli], which is not among the files at
    hand: the distinguished error by which a modality reports that a
    non-registered credential was used.  The string is its identity. *)
Definition ErrUsingNonRegisteredDevice_id : string :=
  "wancli.ErrUsingNonRegisteredDevice".

Definition ErrUsingNonRegisteredDevice : error :=
  ErrorString ErrUsingNonRegisteredDevice_id.

(** The sub-challenges and the response are protobuf messages; only their
    presence matters to the code below. *)
Inductive TOTPChallenge : Type := MkTOTPChallenge.
Inductive CredentialAssertion : Type := MkCredentialAssertion (challenge : string).

Record MFAAuthenticateChallenge : Type := {
  TOTP : option TOTPChallenge;
  WebauthnChallenge : option CredentialAssertion
}.

Inductive MFAAuthenticateResponse : Type :=
| TOTPResponse (code : string)
| WebauthnResponse (credential : string).

Record PromptConfig : Type := {
  ProxyAddress : string;
  PromptReason : string;
  DeviceType : string;
  Quiet : bool;
  AllowStdinHijack : bool;
  AuthenticatorAttachment_ : AuthenticatorAttachment;
  PreferOTP : bool;
  WebauthnSupported : bool
}.

Record RunOpts : Type := {
  PromptTOTP : bool;
  PromptWebauthn : bool
}.

(** The zero value [RunOpts{}]. *)
Definition RunOpts_zero : RunOpts :=
  {| PromptTOTP := false; PromptWebauthn := false |}.

(** [PromptConfig.GetRunOptions].  The two [switch] statements take the
    first case whose condition holds. *)
Definition GetRunOptions (c : PromptConfig) (chal : MFAAuthenticateChallenge)
  : RunOpts * option error :=
  let promptTOTP := bool_decide (TOTP chal ≠ None) in
  let promptWebauthn := bool_decide (WebauthnChallenge chal ≠ None) in
  if negb promptTOTP && negb promptWebauthn then
    (RunOpts_zero, BadParameter "mfa challenge is empty")
  else if negb promptTOTP && negb (WebauthnSupported c) then
    (RunOpts_zero,
     BadParameter "hardware device MFA not supported by your platform, please register an OTP device")
  else
    let promptWebauthn :=
      if negb (WebauthnSupported c) then false else promptWebauthn in
    let '(promptTOTP, promptWebauthn) :=
      if promptTOTP && PreferOTP c then (promptTOTP, false)
      else if promptWebauthn
              && bool_decide (AuthenticatorAttachment_ c ≠ AttachmentAuto)
      then (false, promptWebauthn)
      else if promptWebauthn && negb (AllowStdinHijack c)
      then (false, promptWebauthn)
      else (promptTOTP, promptWebauthn) in
    ({| PromptTOTP := promptTOTP; PromptWebauthn := promptWebauthn |}, None).

(** The enablement policy in the words of the specification: a modality is
    available when the challenge carries its sub-challenge and the platform
    can serve it; then the preference rules apply in order. *)
Definition policy_available (c : PromptConfig) (chal : MFAAuthenticateChallenge)
  : bool * bool :=
  (bool_decide (is_Some (TOTP chal)),
   bool_decide (is_Some (WebauthnChallenge chal)) && WebauthnSupported c).

Definition policy_prefer (c : PromptConfig) (avail : bool * bool) : bool * bool :=
  let '(totp, webauthn) := avail in
  if totp && PreferOTP c then (totp, false)
  else if webauthn && bool_decide (AuthenticatorAttachment_ c ≠ AttachmentAuto)
  then (false, webauthn)
  else if webauthn && negb (AllowStdinHijack c) then (false, webauthn)
  else (totp, webauthn).

Definition policy_enabled (c : PromptConfig) (chal : MFAAuthenticateChallenge)
  : bool * bool :=
  policy_prefer c (policy_available c chal).

(** [MFAGoroutineResponse]. *)
Record MFAGoroutineResponse : Type := {
  Resp : option MFAAuthenticateResponse;
  Err : option error
}.

Definition authn_failed_message : string :=
  "failed to authenticate using available MFA devices".

(** What [HandleMFAGoroutines] returns. *)
Definition outcome : Type := (option MFAAuthenticateResponse * option error)%type.

(** One pass through the body of [for resp := range respC]: either the
    loop goes on with the grown [errs], or the function returns. *)
Inductive iteration : Type :=
| Continue (errs : list error)
| Return (out : outcome).

Definition handle_response (errs : list error) (resp : MFAGoroutineResponse)
  : iteration :=
  match Err resp with
  | Some err =>
      if errors_Is err ErrUsingNonRegisteredDevice_id
      then Return (None, Wrap (Err resp) None)
      else Continue (errs ++ [err])
  | None => Return (Resp resp, None)
  end.

(** The statement after the loop, reached once [respC] is closed and
    drained. *)
Definition all_failed (errs : list error) : outcome :=
  (None, Wrap (NewAggregate (Some <$> errs)) (Some authn_failed_message)).

(** The loop run on the responses in the order they leave the channel:
    the outcome and how many responses were read. *)
Fixpoint range_respC (errs : list error) (received : list MFAGoroutineResponse)
  : outcome * nat :=
  match received with
  | [] => (all_failed errs, 0)
  | resp :: rest =>
      match handle_response errs resp with
      | Return out => (out, 1)
      | Continue errs' =>
          let '(out, n) := range_respC errs' rest in (out, S n)
      end
  end.

(** [HandleMFAGoroutines] as a function of the responses in the order in
    which the channel hands them over, up to its closing. *)
Definition HandleMFAGoroutines (received : list MFAGoroutineResponse) : outcome :=
  (range_respC [] received).1.

(** The state of one race.  [running] holds the goroutines started by
    [startGoroutines] that have not yet pushed, each with the response it
    is going to push; [respC] is the buffered channel (capacity 2), oldest
    entry first; [errs] is the coordinator's local slice. *)
Record race : Type := {
  running : list MFAGoroutineResponse;
  respC : list MFAGoroutineResponse;
  errs : list error
}.

Definition respC_capacity : nat := 2.

(** The state right after [startGoroutines] returned. *)
Definition started (tasks : list MFAGoroutineResponse) : race :=
  {| running := tasks; respC := []; errs := [] |}.

(** The runs of [HandleMFAGoroutines]: [run s received out] says that from
    [s] the coordinator reads exactly [received], in this order, and
    returns [out].  A goroutine may push whenever the buffer has room; the
    coordinator takes the oldest buffered response; the channel is closed
    (by the goroutine waiting on the [WaitGroup]) once every goroutine is
    done, and the loop ends when the closed channel is empty. *)
Inductive run : race -> list MFAGoroutineResponse -> outcome -> Prop :=
| run_push s i resp received out :
    running s !! i = Some resp ->
    length (respC s) < respC_capacity ->
    run {| running := delete i (running s);
           respC := respC s ++ [resp];
           errs := errs s |} received out ->
    run s received out
| run_recv_continue s resp buffered errs' received out :
    respC s = resp :: buffered ->
    handle_response (errs s) resp = Continue errs' ->
    run {| running := running s; respC := buffered; errs := errs' |}
        received out ->
    run s (resp :: received) out
| run_recv_return s resp buffered out :
    respC s = resp :: buffered ->
    handle_response (errs s) resp = Return out ->
    run s [resp] out
| run_closed s :
    running s = [] ->
    respC s = [] ->
    run s [] (all_failed (errs s)).

(** A goroutine that failed pushes its error; the failure is ordinary when
    the error is not the
    non-registered-device signal. *)
Definition failed (e : error) : MFAGoroutineResponse :=
  {| Resp := None; Err := Some e |}.

Definition ordinary (e : error) : Prop :=
  errors_Is e ErrUsingNonRegisteredDevice_id = false.

(** [strings.HasPrefix]. *)
Definition HasPrefix (s prefix : string) : bool := String.prefix prefix s.

(** [PromptConfig.GetWebauthnOrigin]. *)
Definition GetWebauthnOrigin (c : PromptConfig) : string :=
  if negb (HasPrefix (ProxyAddress c) "https://")
  then "https://" ++ ProxyAddress c
  else ProxyAddress c.

Definition with_ProxyAddress (addr : string) (c : PromptConfig) : PromptConfig :=
  {| ProxyAddress := addr; PromptReason := PromptReason c;
     DeviceType := DeviceType c; Quiet := Quiet c;
     AllowStdinHijack := AllowStdinHijack c;
     AuthenticatorAttachment_ := AuthenticatorAttachment_ c;
     PreferOTP := PreferOTP c; WebauthnSupported := WebauthnSupported c |}.

(** [DefaultPromptConfig]: the fields it does not name keep their zero
    value ([AttachmentAuto] is the first value of its enumeration);
    [hasPlatformSupport] is what [wancli.HasPlatformSupport()] returns. *)
Definition DefaultPromptConfig (proxyAddr : string) (hasPlatformSupport : bool)
  : PromptConfig :=
  {| ProxyAddress := proxyAddr; PromptReason := ""; DeviceType := "";
     Quiet := false; AllowStdinHijack := false;
     AuthenticatorAttachment_ := AttachmentAuto; PreferOTP := false;
     WebauthnSupported := hasPlatformSupport |}.

(** [PromptOpt]: an option updates the configuration it is given. *)
Definition PromptOpt : Type := PromptConfig -> PromptConfig.

(** [WithQuiet]. *)
Definition WithQuiet : PromptOpt := fun cfg =>
  {| ProxyAddress := ProxyAddress cfg; PromptReason := PromptReason cfg;
     DeviceType := DeviceType cfg; Quiet := true;
     AllowStdinHijack := AllowStdinHijack cfg;
     AuthenticatorAttachment_ := AuthenticatorAttachment_ cfg;
     PreferOTP := PreferOTP cfg; WebauthnSupported := WebauthnSupported cfg |}.

(** [WithPromptReason]. *)
Definition WithPromptReason (hint : string) : PromptOpt := fun cfg =>
  {| ProxyAddress := ProxyAddress cfg; PromptReason := hint;
     DeviceType := DeviceType cfg; Quiet := Quiet cfg;
     AllowStdinHijack := AllowStdinHijack cfg;
     AuthenticatorAttachment_ := AuthenticatorAttachment_ cfg;
     PreferOTP := PreferOTP cfg; WebauthnSupported := WebauthnSupported cfg |}.

Definition adminMFAPromptReason : string :=
  "MFA is required for admin-level API request.".

(** [WithPromptReasonAdminAction]. *)
Definition WithPromptReasonAdminAction : PromptOpt :=
  WithPromptReason adminMFAPromptReason.

(** [WithPromptDeviceType]. *)
Definition WithPromptDeviceType (deviceType : string) : PromptOpt := fun cfg =>
  {| ProxyAddress := ProxyAddress cfg; PromptReason := PromptReason cfg;
     DeviceType := deviceType; Quiet := Quiet cfg;
     AllowStdinHijack := AllowStdinHijack cfg;
     AuthenticatorAttachment_ := AuthenticatorAttachment_ cfg;
     PreferOTP := PreferOTP cfg; WebauthnSupported := WebauthnSupported cfg |}.

(** The options this package provides. *)
Inductive provided_option : PromptOpt -> Prop :=
| provided_WithQuiet : provided_option WithQuiet
| provided_WithPromptReason hint : provided_option (WithPromptReason hint)
| provided_WithPromptDeviceType deviceType :
    provided_option (WithPromptDeviceType deviceType).

(** Options are applied one after the other, each to the configuration the
    one before left. *)
Definition apply_options (opts : list PromptOpt) (cfg : PromptConfig) : PromptConfig :=
  foldl (fun cfg opt => opt cfg) cfg opts.

(** A response that carries no error. *)
Definition succeeded (resp : MFAGoroutineResponse) : Prop := Err resp = None.

(** A response whose error is the non-registered-device error. *)
Definition fatal (resp : MFAGoroutineResponse) : Prop :=
  exists e, Err resp = Some e
            /\ errors_Is e ErrUsingNonRegisteredDevice_id = true.

(** A response whose error is any other error. *)
Definition failed_ordinarily (resp : MFAGoroutineResponse) : Prop :=
  exists e, Err resp = Some e /\ ordinary e.

(** A goroutine that succeeded with a Webauthn assertion, and what the
    coordinator returns for it. *)
Definition assertion_ok : MFAGoroutineResponse :=
  {| Resp := Some (WebauthnResponse "assertion"); Err := None |}.

Definition assertion_out : outcome := (Some (WebauthnResponse "assertion"), None).

End Mfa.

(** ** The client cache: [integrations/operator/embeddedtbot/syncclient] *)

Module Syncclient.
Import Trace.

#[global] Instance byte_eq_dec : EqDecision byte := Byte.byte_eq_dec.

(** A Go [[]byte]: [None] is the [nil] slice. *)
Definition bytes : Type := option (list byte).

Definition len (b : bytes) : nat := length (default [] b).

(** [bytes.Equal]: equal contents; a [nil] slice equals an empty one. *)
Definition bytes_Equal (a b : bytes) : bool :=
  bool_decide (default [] a = default [] b).

(** Modelled from the spec: the type [SyncClient] with its methods
    [LockClient] and [RetireClient] is declared in [syncclient.go], which
    is not among the files at hand.  By the specification a handle is a
    reference guarded by a usage lock: [LockClient] takes the usage lock
    and gives back the release capability, [RetireClient] closes the
    handle.  A [*SyncClient] is modelled by the address it points to. *)
Inductive SyncClient : Type := SyncClientAt (addr : nat).

#[global] Instance SyncClient_eq_dec : EqDecision SyncClient.
Proof. solve_decision. Defined.

(** What a [go] statement of [Get] starts. *)
Inductive goroutine : Type :=
| RetireClient (client : SyncClient).

(** Everything outside the [Cache] struct that [Get] acts on: how often
    the two callbacks have been called, the goroutines started so far and
    the usage locks taken so far. *)
Record World : Type := {
  getterCalls : nat;
  builderCalls : nat;
  goroutines : list goroutine;
  usageLocks : list SyncClient
}.

(** The [Cache] struct (the mutex is held for the whole of [Get], so [Get]
    is one atomic transition).  A callback is given by what it returns at
    its n-th call. *)
Record Cache : Type := {
  cachedCert : bytes;
  cachedClient : option SyncClient;
  clientBuilder : nat -> option SyncClient * option error;
  certGetter : nat -> bytes * option error
}.

(** [NewCache]. *)
Definition NewCache (clientBuilder : nat -> option SyncClient * option error)
  (certGetter : nat -> bytes * option error) : Cache :=
  {| cachedCert := None; cachedClient := None;
     clientBuilder := clientBuilder; certGetter := certGetter |}.

Definition called_getter (w : World) : World :=
  {| getterCalls := S (getterCalls w); builderCalls := builderCalls w;
     goroutines := goroutines w; usageLocks := usageLocks w |}.

Definition called_builder (w : World) : World :=
  {| getterCalls := getterCalls w; builderCalls := S (builderCalls w);
     goroutines := goroutines w; usageLocks := usageLocks w |}.

(** [go g]: the goroutine is started, not run. *)
Definition go (g : goroutine) (w : World) : World :=
  {| getterCalls := getterCalls w; builderCalls := builderCalls w;
     goroutines := goroutines w ++ [g]; usageLocks := usageLocks w |}.

(** [client.LockClient()] on a non-nil client. *)
Definition LockClient (client : SyncClient) (w : World) : World :=
  {| getterCalls := getterCalls w; builderCalls := builderCalls w;
     goroutines := goroutines w; usageLocks := client :: usageLocks w |}.

(** What [Get] returns: the client, the release function (named by the
    client whose usage lock it releases) and the error; or a panic, when
    [LockClient] is called through a [nil] pointer. *)
Inductive result : Type :=
| Returned (client : option SyncClient) (release : option SyncClient)
    (err : option error)
| Panicked.

Definition store (cert : bytes) (client : option SyncClient) (c : Cache) : Cache :=
  {| cachedCert := cert; cachedClient := client;
     clientBuilder := clientBuilder c; certGetter := certGetter c |}.

Definition no_certificate_message : string :=
  "no certificate in tbot's memory, cannot compare".

(** [return c.cachedClient, c.cachedClient.LockClient(), nil]. *)
Definition return_cached (c : Cache) (w : World) : result * Cache * World :=
  match cachedClient c with
  | Some client => (Returned (Some client) (Some client) None, c, LockClient client w)
  | None => (Panicked, c, w)
  end.

(** [Cache.Get]. *)
Definition Get (c : Cache) (w : World) : result * Cache * World :=
  let '(cert, err) := certGetter c (getterCalls w) in
  let w := called_getter w in
  match err with
  | Some _ => (Returned None None (Wrap err None), c, w)
  | None =>
      if bool_decide (cert = None) || bool_decide (len cert = 0) then
        (Returned None None (CompareFailed no_certificate_message), c, w)
      else if bool_decide (cachedClient c ≠ None)
              && bytes_Equal cert (cachedCert c) then
        return_cached c w
      else
        let oldClient := cachedClient c in
        let '(freshClient, err) := clientBuilder c (builderCalls w) in
        let w := called_builder w in
        match err with
        | Some _ => (Returned None None (Wrap err None), c, w)
        | None =>
            let c := store cert freshClient c in
            let w :=
              match oldClient with
              | Some old => go (RetireClient old) w
              | None => w
              end in
            return_cached c w
        end
  end.

(** The builder of [cache_test.go]: every call builds a new client. *)
Definition mockClientBuilder (n : nat) : option SyncClient * option error :=
  (Some (SyncClientAt (100 + n)), None).

Definition cert1 : bytes := Some ["c"; "e"; "r"; "t"; "1"]%byte.
Definition cert2 : bytes := Some ["c"; "e"; "r"; "t"; "2"]%byte.

Definition world0 : World :=
  {| getterCalls := 0; builderCalls := 0; goroutines := []; usageLocks := [] |}.

(** The cache of one row of the table of [TestBot_GetClient]. *)
Definition test_cache (currentCert cachedCert : bytes)
  (cachedClient : option SyncClient) : Cache :=
  {| cachedCert := cachedCert; cachedClient := cachedClient;
     clientBuilder := mockClientBuilder;
     certGetter := fun _ => (currentCert, None) |}.

(** Calls of [Get] one after the other, each on the cache and the world
    the one before left; a panic ends the sequence. *)
Fixpoint Gets (n : nat) (c : Cache) (w : World) : list result * Cache * World :=
  match n with
  | 0 => ([], c, w)
  | S n =>
      let '(r, c, w) := Get c w in
      match r with
      | Panicked => ([r], c, w)
      | Returned _ _ _ =>
          let '(rs, c, w) := Gets n c w in (r :: rs, c, w)
      end
  end.

(** The clients handed to the cache by the first [calls] calls of the
    builder that returned a client and no error, in the order built. *)
Definition built (c : Cache) (calls : nat) : list SyncClient :=
  omap (fun i => match clientBuilder c i with
                 | (Some client, None) => Some client
                 | _ => None
                 end) (seq 0 calls).

(** The clients for which a retiring goroutine has been started, in the
    order started. *)
Definition retired (w : World) : list SyncClient :=
  (fun g => match g with RetireClient client => client end) <$> goroutines w.

(** Every client built is the cached one or has been retired. *)
Definition accounted (c : Cache) (w : World) : Prop :=
  built c (builderCalls w) = retired w ++ option_list (cachedClient c).

End Syncclient.

(** ** The headless watcher: [lib/teleterm/daemon] *)

Module Daemon.
Import Trace.

(** The contexts made so far, each named by a number, and those whose
    cancel function has been called.  All of them are children of
    [s.closeContext]; the model covers the service while that context is
    live. *)
Record contexts : Type := {
  made : nat;
  cancelled : gset nat
}.

(** [context.WithCancel] and [context.WithTimeout]: a fresh context and
    its cancel function. *)
Definition WithCancel (cs : contexts) : nat * contexts :=
  (made cs, {| made := S (made cs); cancelled := cancelled cs |}).

(** Calling a [context.CancelFunc]. *)
Definition cancel (ctx : nat) (cs : contexts) : contexts :=
  {| made := made cs; cancelled := {[ctx]} ∪ cancelled cs |}.

(** Modelled from the spec: [types.OpType],
    [types.HeadlessAuthenticationState] and the resource types are
    declared in [api/types], which is not among the files at hand.  An
    event is an init, a put or a delete (the other constructors stand for
    the remaining operation types, which the loop ignores); the loop tells
    the states approved and denied from the rest. *)
Inductive OpType : Type :=
| OpUnreliable | OpInvalid | OpInit | OpPut | OpDelete | OpGet.

Inductive HeadlessAuthenticationState : Type :=
| STATE_UNSPECIFIED | STATE_PENDING | STATE_DENIED | STATE_APPROVED.

Record HeadlessAuthentication : Type := {
  Name : string;
  State : HeadlessAuthenticationState;
  ClientIpAddress : string
}.

(** The dynamic type of a [types.Resource] value: a headless
    authentication, or something else that has a name (a delete event
    carries a bare resource header). *)
Inductive Resource : Type :=
| HeadlessAuthenticationResource (ha : HeadlessAuthentication)
| ResourceHeader (name : string).

Definition GetName (r : Resource) : string :=
  match r with
  | HeadlessAuthenticationResource ha => Name ha
  | ResourceHeader name => name
  end.

(** [types.Event]; the resource may be [nil]. *)
Record Event : Type := {
  Type_ : OpType;
  Resource_ : option Resource
}.

(** What one [select] of the watch loop can receive. *)
Inductive signal : Type :=
| PendingEvents (event : Event)
| ResolutionEvents (event : Event)
| PendingDone (err : option error)
| ResolutionDone (err : option error)
| WatchCtxDone.

(** The state the watch loop works on: the registry [pendingRequests]
    (request name to the cancel function of its notification), the
    contexts, and the notification goroutines started so far (context and
    request). *)
Record watching : Type := {
  pendingRequests : gmap string nat;
  ctxs : contexts;
  sending : list (nat * HeadlessAuthentication)
}.

(** The closure [cancelPendingRequest]. *)
Definition cancelPendingRequest (name : string) (w : watching) : watching :=
  match pendingRequests w !! name with
  | Some cancelSend =>
      {| pendingRequests := pendingRequests w;
         ctxs := cancel cancelSend (ctxs w);
         sending := sending w |}
  | None => w
  end.

(** The closure [addPendingRequest]. *)
Definition addPendingRequest (name : string) (cancelSend : nat) (w : watching)
  : watching :=
  {| pendingRequests := <[name := cancelSend]> (pendingRequests w);
     ctxs := ctxs w;
     sending := sending w |}.

(** How [watch] ends: it returns an error (or [nil]), or it panics on a
    method call through a [nil] interface. *)
Inductive ending : Type :=
| Returns (err : option error)
| Panics.

Definition unexpected_resource : option error :=
  Some (TraceErr (ErrorString "headless watcher returned an unexpected resource type") []).

(** One turn of the [for { select { ... } }] loop of [watch]. *)
Definition watch_select (w : watching) (sig : signal) : watching + ending :=
  match sig with
  | PendingEvents event =>
      match Type_ event with
      | OpPut =>
          match Resource_ event with
          | Some (HeadlessAuthenticationResource ha) =>
              let '(sendCtx, cs) := WithCancel (ctxs w) in
              let w := {| pendingRequests := pendingRequests w;
                          ctxs := cs;
                          sending := sending w |} in
              let w := addPendingRequest (Name ha) sendCtx w in
              inl {| pendingRequests := pendingRequests w;
                     ctxs := ctxs w;
                     sending := sending w ++ [(sendCtx, ha)] |}
          | _ => inr (Returns unexpected_resource)
          end
      | _ => inl w
      end
  | ResolutionEvents event =>
      match Type_ event with
      | OpPut =>
          match Resource_ event with
          | Some (HeadlessAuthenticationResource ha) =>
              match State ha with
              | STATE_APPROVED | STATE_DENIED =>
                  inl (cancelPendingRequest (Name ha) w)
              | _ => inl w
              end
          | _ => inr (Returns unexpected_resource)
          end
      | OpDelete =>
          match Resource_ event with
          | Some r => inl (cancelPendingRequest (GetName r) w)
          | None => inr Panics
          end
      | _ => inl w
      end
  | PendingDone err => inr (Returns (Wrap err (Some "pending watcher error")))
  | ResolutionDone err => inr (Returns (Wrap err (Some "resolution watcher error")))
  | WatchCtxDone => inr (Returns None)
  end.

(** The loop on the signals in the order the [select] receives them; with
    no signal left the loop is still running. *)
Fixpoint watch_loop (w : watching) (sigs : list signal) : watching + ending :=
  match sigs with
  | [] => inl w
  | sig :: rest =>
      match watch_select w sig with
      | inl w' => watch_loop w' rest
      | inr e => inr e
      end
  end.

(** The state of a fresh watch: [pendingRequests] is made empty by
    [startHeadlessWatcher]. *)
Definition watch_start (cs : contexts) : watching :=
  {| pendingRequests := ∅; ctxs := cs; sending := [] |}.

(** The events in the life of a request: its pending put, and the put or
    the delete that resolves it. *)
Definition pending_put (ha : HeadlessAuthentication) : signal :=
  PendingEvents {| Type_ := OpPut; Resource_ := Some (HeadlessAuthenticationResource ha) |}.

Definition resolution_put (ha : HeadlessAuthentication) : signal :=
  ResolutionEvents {| Type_ := OpPut; Resource_ := Some (HeadlessAuthenticationResource ha) |}.

Definition resolution_delete (r : Resource) : signal :=
  ResolutionEvents {| Type_ := OpDelete; Resource_ := Some r |}.

(** A terminal resolution event for the request [name]: a put whose state
    is approved or denied, or a delete. *)
Inductive terminal_resolution (name : string) : signal -> Prop :=
| terminal_approved ha :
    Name ha = name -> State ha = STATE_APPROVED ->
    terminal_resolution name (resolution_put ha)
| terminal_denied ha :
    Name ha = name -> State ha = STATE_DENIED ->
    terminal_resolution name (resolution_put ha)
| terminal_deleted r :
    GetName r = name ->
    terminal_resolution name (resolution_delete r).

(** The part of [Service] the watcher functions act on: the registry
    [headlessWatcherClosers] (cluster URI to the cancel function of its
    watch), the contexts, and the goroutines running a watch loop, each
    with its cluster URI and its [watchCtx]. *)
Record Service : Type := {
  headlessWatcherClosers : gmap string nat;
  contexts_ : contexts;
  watchLoops : list (string * nat)
}.

(** [Service.stopHeadlessWatcher]. *)
Definition stopHeadlessWatcher (uri : string) (s : Service)
  : option error * Service :=
  match headlessWatcherClosers s !! uri with
  | None => (NotFound ("no headless watcher for cluster " ++ uri), s)
  | Some watchCancel =>
      (None,
       {| headlessWatcherClosers := delete uri (headlessWatcherClosers s);
          contexts_ := cancel watchCancel (contexts_ s);
          watchLoops := watchLoops s |})
  end.

Definition context_Canceled : error := ErrorString "context.Canceled".

(** [Service.startHeadlessWatcher] for the cluster with the given URI.
    [retryutils.NewLinear] is not among the files at hand; [retryErr] is
    the error it returns.  When [waitInit] is set the function blocks in a
    [select]; [initialized] tells which case fires. *)
Definition startHeadlessWatcher (uri : string) (waitInit : bool)
  (retryErr : option error) (initialized : bool) (s : Service)
  : option error * Service :=
  let '(err, s) := stopHeadlessWatcher uri s in
  if bool_decide (err ≠ None) && negb (from_option IsNotFound false err) then
    (Wrap err None, s)
  else
    match retryErr with
    | Some _ => (Wrap retryErr None, s)
    | None =>
        let '(watchCtx, cs) := WithCancel (contexts_ s) in
        let s := {| headlessWatcherClosers :=
                      <[uri := watchCtx]> (headlessWatcherClosers s);
                    contexts_ := cs;
                    watchLoops := watchLoops s ++ [(uri, watchCtx)] |} in
        if waitInit && negb initialized
        then (Wrap (Some context_Canceled) None, s)
        else (None, s)
    end.

(** The state [startHeadlessWatcher] leaves when it gets past the
    construction of the retry: a fresh [watchCtx], registered for the
    cluster, and a goroutine running the watch loop. *)
Definition watching_started (uri : string) (s : Service) : Service :=
  {| headlessWatcherClosers :=
       <[uri := made (contexts_ s)]> (headlessWatcherClosers s);
     contexts_ := {| made := S (made (contexts_ s));
                     cancelled := cancelled (contexts_ s) |};
     watchLoops := watchLoops s ++ [(uri, made (contexts_ s))] |}.

(** The end of the goroutine started by [startHeadlessWatcher]: its
    deferred function removes the registration unless [watchCtx] is done. *)
Definition watchLoopExit (uri : string) (watchCtx : nat) (s : Service) : Service :=
  let s := {| headlessWatcherClosers := headlessWatcherClosers s;
              contexts_ := contexts_ s;
              watchLoops :=
                filter (λ l, l ≠ (uri, watchCtx)) (watchLoops s) |} in
  if bool_decide (watchCtx ∈ cancelled (contexts_ s)) then s
  else (stopHeadlessWatcher uri s).2.

(** The watch loops of a cluster that are live: those whose [watchCtx] has
    not been cancelled. *)
Definition active_watches (uri : string) (s : Service) : list (string * nat) :=
  filter (λ l, l.1 = uri ∧ l.2 ∉ cancelled (contexts_ s)) (watchLoops s).

(** A service with no watcher. *)
Definition Service_new : Service :=
  {| headlessWatcherClosers := ∅;
     contexts_ := {| made := 0; cancelled := ∅ |};
     watchLoops := [] |}.

(** The operations that act on the registry. *)
Inductive operation : Type :=
| Start (uri : string) (waitInit : bool) (retryErr : option error) (initialized : bool)
| Stop (uri : string)
| LoopExit (uri : string) (watchCtx : nat).

Definition perform (op : operation) (s : Service) : Service :=
  match op with
  | Start uri waitInit retryErr initialized =>
      (startHeadlessWatcher uri waitInit retryErr initialized s).2
  | Stop uri => (stopHeadlessWatcher uri s).2
  | LoopExit uri watchCtx => watchLoopExit uri watchCtx s
  end.

(** An operation the service can really see: only a goroutine that was
    started can exit. *)
Definition enabled (op : operation) (s : Service) : Prop :=
  match op with
  | LoopExit uri watchCtx => (uri, watchCtx) ∈ watchLoops s
  | _ => True
  end.

Inductive reachable : Service -> Prop :=
| reachable_new : reachable Service_new
| reachable_perform op s : reachable s -> enabled op s -> reachable (perform op s).

(** The invariant of the registry: a registered cancel function belongs
    to a started watch loop whose context is live; a watch loop whose
    context is live is the one registered for its cluster; contexts are
    named by numbers below [made], and no two watch loops share one. *)
Definition registry_inv (s : Service) : Prop :=
  (forall uri c,
     headlessWatcherClosers s !! uri = Some c ->
     (uri, c) ∈ watchLoops s /\ c ∉ cancelled (contexts_ s))
  /\ (forall uri c,
        (uri, c) ∈ watchLoops s ->
        c < made (contexts_ s)
        /\ (c ∉ cancelled (contexts_ s) ->
            headlessWatcherClosers s !! uri = Some c))
  /\ NoDup (watchLoops s)
  /\ (forall uri uri' c,
        (uri, c) ∈ watchLoops s -> (uri', c) ∈ watchLoops s -> uri = uri')
  /\ (forall c, c ∈ cancelled (contexts_ s) -> c < made (contexts_ s)).

(** A request and its resolutions, for the examples. *)
Definition request1 (state : HeadlessAuthenticationState) : HeadlessAuthentication :=
  {| Name := "request-1"; State := state; ClientIpAddress := "192.0.2.10" |}.

Definition no_contexts : contexts := {| made := 0; cancelled := ∅ |}.

(** The watch loop after the pending put of [request1] and its denial. *)
Definition request1_denied : watching :=
  {| pendingRequests := {["request-1" := 0]};
     ctxs := {| made := 1; cancelled := {[0]} |};
     sending := [(0, request1 STATE_PENDING)] |}.

(** Modelled from the spec: [clusters.Cluster] is declared in
    [lib/teleterm/clusters], which is not among the files at hand.  The
    watcher functions use its URI and whether it is in a connected
    state. *)
Record Cluster : Type := {
  URI : string;
  Connected : bool
}.

(** [Service.StartHeadlessWatcher].  [s.ResolveCluster] is not among the
    files at hand; [resolved] is what it returns for the URI given.  The
    watcher is registered under the URI of the cluster resolved. *)
Definition StartHeadlessWatcher (resolved : Cluster * option error)
  (waitInit : bool) (retryErr : option error) (initialized : bool) (s : Service)
  : option error * Service :=
  match resolved.2 with
  | Some _ => (Wrap resolved.2 None, s)
  | None =>
      let '(err, s) :=
        startHeadlessWatcher (URI resolved.1) waitInit retryErr initialized s in
      (Wrap err None, s)
  end.

(** The loop of [Service.StartHeadlessWatchers] over the clusters read. *)
Fixpoint start_connected (clusters : list Cluster) (retryErr : option error)
  (s : Service) : option error * Service :=
  match clusters with
  | [] => (None, s)
  | c :: rest =>
      if Connected c then
        let '(err, s) := startHeadlessWatcher (URI c) false retryErr false s in
        match err with
        | Some _ => (Wrap err None, s)
        | None => start_connected rest retryErr s
        end
      else start_connected rest retryErr s
  end.

(** [Service.StartHeadlessWatchers]; [readAll] is what
    [s.cfg.Storage.ReadAll()] returns.  The retry is built from constants,
    so [retryutils.NewLinear] returns the same [retryErr] at every start. *)
Definition StartHeadlessWatchers (readAll : list Cluster * option error)
  (retryErr : option error) (s : Service) : option error * Service :=
  match readAll.2 with
  | Some _ => (Wrap readAll.2 None, s)
  | None => start_connected readAll.1 retryErr s
  end.

(** [Service.StopHeadlessWatcher]. *)
Definition StopHeadlessWatcher (uri : string) (s : Service)
  : option error * Service :=
  let '(err, s) := stopHeadlessWatcher uri s in (Wrap err None, s).

(** [Service.StopHeadlessWatchers]: [range] visits the keys of the
    registry in an order of its own, given here by [order]; an error of
    [stopHeadlessWatcher] is logged and the loop goes on. *)
Definition StopHeadlessWatchers (order : list string) (s : Service) : Service :=
  foldl (fun s uri => (stopHeadlessWatcher uri s).2) s order.

(** The keys of the registry, in the order of [map_to_list]. *)
Definition registered (s : Service) : list string :=
  (map_to_list (headlessWatcherClosers s)).*1.

(** The headless authentications of the pending put events among the
    signals, in the order received. *)
Definition pending_puts (sigs : list signal) : list HeadlessAuthentication :=
  omap (fun sig =>
          match sig with
          | PendingEvents {| Type_ := OpPut;
                             Resource_ := Some (HeadlessAuthenticationResource ha) |} =>
              Some ha
          | _ => None
          end) sigs.

(** The invariant of a watch loop: a registered cancel function belongs to
    a notification started for the request it is registered for; contexts
    are named by numbers below [made]; no two notifications share one. *)
Definition watching_inv (w : watching) : Prop :=
  (forall name c,
     pendingRequests w !! name = Some c ->
     exists ha, (c, ha) ∈ sending w /\ Name ha = name)
  /\ (forall c ha, (c, ha) ∈ sending w -> c < made (ctxs w))
  /\ NoDup (sending w).*1
  /\ (forall c, c ∈ cancelled (ctxs w) -> c < made (ctxs w)).

(** The cluster an operation is about. *)
Definition operation_uri (op : operation) : string :=
  match op with
  | Start uri _ _ _ => uri
  | Stop uri => uri
  | LoopExit uri _ => uri
  end.

(** A second request, and the watch loop after the pending puts of both. *)
Definition request2 : HeadlessAuthentication :=
  {| Name := "request-2"; State := STATE_PENDING; ClientIpAddress := "192.0.2.20" |}.

Definition two_requests : watching :=
  {| pendingRequests := <["request-2" := 1]> {["request-1" := 0]};
     ctxs := {| made := 2; cancelled := ∅ |};
     sending := [(0, request1 STATE_PENDING); (1, request2)] |}.

End Daemon.

(** * Properties *)

(** ** The MFA prompt *)

Module MfaFacts.
Import Trace Mfa.

(** *** [trace.Wrap] keeps the error it wraps *)

Lemma Wrap_None_message e :
  exists r, Wrap (Some e) None = Some r /\ Unwrap r = Unwrap e
            /\ forall target, errors_Is r target = errors_Is e target.
Proof.
  destruct e; simpl; eexists; (split; [reflexivity|]); simpl; auto.
Qed.

(** *** [GetRunOptions] *)

Example GetRunOptions_both_hijack :
  GetRunOptions
    {| ProxyAddress := "proxy.example.com:443"; PromptReason := "";
       DeviceType := ""; Quiet := false; AllowStdinHijack := true;
       AuthenticatorAttachment_ := AttachmentAuto; PreferOTP := false;
       WebauthnSupported := true |}
    {| TOTP := Some MkTOTPChallenge;
       WebauthnChallenge := Some (MkCredentialAssertion "c") |}
  = ({| PromptTOTP := true; PromptWebauthn := true |}, None).
Proof. reflexivity. Qed.

Example GetRunOptions_no_platform_support :
  GetRunOptions
    {| ProxyAddress := "proxy.example.com:443"; PromptReason := "";
       DeviceType := ""; Quiet := false; AllowStdinHijack := true;
       AuthenticatorAttachment_ := AttachmentAuto; PreferOTP := false;
       WebauthnSupported := false |}
    {| TOTP := None;
       WebauthnChallenge := Some (MkCredentialAssertion "c") |}
  = (RunOpts_zero,
     BadParameter "hardware device MFA not supported by your platform, please register an OTP device").
Proof. reflexivity. Qed.

(** The preference rules never switch off the last modality. *)
Lemma policy_prefer_keeps_one c totp webauthn :
  (policy_prefer c (totp, webauthn)).1 || (policy_prefer c (totp, webauthn)).2
  = totp || webauthn.
Proof.
  unfold policy_prefer.
  destruct totp, webauthn, (PreferOTP c), (AllowStdinHijack c),
    (AuthenticatorAttachment_ c); reflexivity.
Qed.

(** C3: [GetRunOptions] returns an error exactly when the enablement
    policy leaves no modality enabled, which is exactly when the challenge
    carries neither sub-challenge or carries no TOTP sub-challenge on a
    platform without Webauthn support; the error is of the BadParameter
    class and comes with the zero options.  In every other case it returns
    no error and the options the policy computes (availability, then the
    preference rules in order: PreferOTP, a non-auto attachment, no stdin
    hijack), of which at least one is enabled. *)
Theorem GetRunOptions_policy (c : PromptConfig) (chal : MFAAuthenticateChallenge) :
  let opts := (GetRunOptions c chal).1 in
  let err := (GetRunOptions c chal).2 in
  let enabled := policy_enabled c chal in
  (is_Some err <-> enabled = (false, false))
  /\ (is_Some err <->
        (TOTP chal = None /\ WebauthnChallenge chal = None)
        \/ (TOTP chal = None /\ WebauthnSupported c = false))
  /\ (forall e, err = Some e -> IsBadParameter e = true /\ opts = RunOpts_zero)
  /\ (err = None ->
        opts = {| PromptTOTP := enabled.1; PromptWebauthn := enabled.2 |}
        /\ (PromptTOTP opts = true \/ PromptWebauthn opts = true)).
Proof.
  destruct c as [pa pr dt q hijack att otp sup], chal as [[t|] [w|]];
    destruct hijack, att, otp, sup; vm_compute;
    repeat split; intros;
    repeat match goal with
      | H : exists _, _ |- _ => destruct H
      | H : _ \/ _ |- _ => destruct H
      | H : _ /\ _ |- _ => destruct H
      | H : Some _ = Some _ |- _ => injection H as <-
      end;
    try discriminate; try reflexivity; eauto.
Qed.

(** *** [HandleMFAGoroutines] *)

Lemma handle_response_ordinary errs0 e :
  ordinary e -> handle_response errs0 (failed e) = Continue (errs0 ++ [e]).
Proof. unfold ordinary, handle_response; simpl; intros ->; reflexivity. Qed.

Lemma handle_response_fatal errs0 resp e :
  Err resp = Some e ->
  errors_Is e ErrUsingNonRegisteredDevice_id = true ->
  handle_response errs0 resp = Return (None, Wrap (Some e) None).
Proof. unfold handle_response; intros -> ->; reflexivity. Qed.

Lemma handle_response_Continue errs0 resp errs' :
  handle_response errs0 resp = Continue errs' ->
  exists e, Err resp = Some e /\ ordinary e /\ errs' = errs0 ++ [e].
Proof.
  unfold handle_response, ordinary.
  destruct (Err resp) as [e|]; [|discriminate].
  destruct (errors_Is e _) eqn:E; [discriminate|].
  intros [= <-]; eauto.
Qed.

(** The outcome of a run is the one the loop computes on the responses
    the run reads. *)
Lemma run_range_respC s received out :
  run s received out -> out = (range_respC (errs s) received).1.
Proof.
  induction 1 as [s i resp received out _ _ _ IH
                 | s resp buffered errs' received out _ Hh _ IH
                 | s resp buffered out _ Hh
                 | s _ _]; simpl in *.
  - exact IH.
  - rewrite Hh. destruct (range_respC errs' received); exact IH.
  - rewrite Hh; reflexivity.
  - reflexivity.
Qed.

Lemma run_HandleMFAGoroutines tasks received out :
  run (started tasks) received out -> out = HandleMFAGoroutines received.
Proof. apply run_range_respC. Qed.

(** When every goroutine fails in the ordinary way, a run reads all the
    responses and ends after the loop with all the errors, in the order
    read. *)
Lemma run_all_ordinary s received out :
  run s received out ->
  Forall (fun resp => exists e, resp = failed e /\ ordinary e)
         (respC s ++ running s) ->
  received ≡ₚ respC s ++ running s
  /\ out = all_failed (errs s ++ omap Err received).
Proof.
  induction 1 as [s i resp received out Hi _ _ IH
                 | s resp buffered errs' received out Hc Hh _ IH
                 | s resp buffered out Hc Hh
                 | s Hr Hc]; simpl in *; intros Hall.
  - assert (Hp : (respC s ++ [resp]) ++ delete i (running s)
                 ≡ₚ respC s ++ running s).
    { rewrite <- app_assoc; simpl. apply Permutation_app_head.
      symmetry. apply delete_Permutation. exact Hi. }
    destruct IH as [IH1 IH2]; [rewrite Hp; exact Hall|].
    split; [rewrite IH1; exact Hp | exact IH2].
  - rewrite Hc in *; simpl in *.
    apply handle_response_Continue in Hh as (e & He & _ & ->).
    destruct IH as [IH1 IH2]; [eapply Forall_inv_tail; exact Hall|].
    split; [rewrite IH1; reflexivity|].
    rewrite He; simpl. rewrite IH2, <- app_assoc. reflexivity.
  - rewrite Hc in Hall. apply Forall_inv in Hall as (e & -> & Ho).
    rewrite handle_response_ordinary in Hh by exact Ho. discriminate.
  - rewrite Hr, Hc, !app_nil_r. split; reflexivity.
Qed.

Lemma omap_id_Some (l : list error) : omap id (Some <$> l) = l.
Proof. induction l as [|x l IH]; simpl; [reflexivity|]. f_equal; exact IH. Qed.

Lemma all_failed_cons e l :
  all_failed (e :: l)
  = (None, Some (TraceErr (aggregate (e :: l)) [authn_failed_message])).
Proof.
  unfold all_failed, NewAggregate; simpl. rewrite omap_id_Some. reflexivity.
Qed.

(** The run in which the given responses, all failures, are pushed one
    after the other, each read before the next is pushed. *)
Lemma run_one_by_one tasks errs0 :
  Forall (fun resp => exists e, resp = failed e /\ ordinary e) tasks ->
  run {| running := tasks; respC := []; errs := errs0 |} tasks
      (all_failed (errs0 ++ omap Err tasks)).
Proof.
  revert errs0; induction tasks as [|resp tasks IH]; intros errs0 Hall.
  - simpl. rewrite app_nil_r. apply (run_closed (Build_race [] [] errs0)); reflexivity.
  - apply Forall_cons_1 in Hall as [(e & -> & Ho) Hall].
    eapply (run_push _ 0); simpl; [reflexivity | unfold respC_capacity; lia |].
    eapply run_recv_continue; simpl;
      [reflexivity | apply handle_response_ordinary; exact Ho |].
    specialize (IH (errs0 ++ [e]) Hall). rewrite <- app_assoc in IH. exact IH.
Qed.

(** *** One modality, which fails *)

Example single_failure_run :
  run (started [failed (ErrorString "invalid totp code")])
      [failed (ErrorString "invalid totp code")]
      (None,
       Some (TraceErr (aggregate [ErrorString "invalid totp code"])
                      [authn_failed_message])).
Proof.
  apply (run_one_by_one [failed (ErrorString "invalid totp code")] []).
  repeat constructor. eexists; split; reflexivity.
Qed.

(** C2, as stated, fails: with one goroutine that fails with the ordinary
    error [invalid totp code], the error returned is neither that error
    nor that error wrapped by [trace.Wrap]: it is an aggregate. *)
Lemma single_failure_not_passed_through :
  ~ (forall e received out,
       ordinary e -> run (started [failed e]) received out ->
       out.2 = Some e \/ out.2 = Wrap (Some e) None).
Proof.
  intros H.
  destruct (H (ErrorString "invalid totp code") _ _ eq_refl single_failure_run)
    as [H'|H']; discriminate H'.
Qed.

(** C2, amended: with exactly one goroutine, which fails with the ordinary
    error [e], every run reads that one response and returns, with no
    response, the aggregate of the single error [e] under the message
    "failed to authenticate using available MFA devices"; such a run
    exists. *)
Theorem single_failure_aggregated (e : error) :
  ordinary e ->
  run (started [failed e]) [failed e]
      (None, Some (TraceErr (aggregate [e]) [authn_failed_message]))
  /\ forall received out,
       run (started [failed e]) received out ->
       received = [failed e]
       /\ out = HandleMFAGoroutines [failed e]
       /\ out = (None, Some (TraceErr (aggregate [e]) [authn_failed_message])).
Proof.
  intros Ho.
  assert (Hall : Forall (fun resp => exists e, resp = failed e /\ ordinary e)
                        [failed e]) by (repeat constructor; eauto).
  assert (HF : HandleMFAGoroutines [failed e]
               = (None, Some (TraceErr (aggregate [e]) [authn_failed_message]))).
  { unfold HandleMFAGoroutines; simpl.
    rewrite handle_response_ordinary by exact Ho. reflexivity. }
  split.
  - apply (run_one_by_one [failed e] []) in Hall. exact Hall.
  - intros received out Hrun. rewrite HF.
    apply run_all_ordinary in Hrun as [Hp ->]; [|exact Hall].
    simpl in Hp. apply Permutation_singleton_r in Hp as ->.
    repeat split.
Qed.

Lemma single_failure_aggregated_witness :
  ordinary (ErrorString "invalid totp code")
  /\ (run (started [failed (ErrorString "invalid totp code")])
          [failed (ErrorString "invalid totp code")]
          (None,
           Some (TraceErr (aggregate [ErrorString "invalid totp code"])
                          [authn_failed_message]))
      /\ forall received out,
           run (started [failed (ErrorString "invalid totp code")]) received out ->
           received = [failed (ErrorString "invalid totp code")]
           /\ out = HandleMFAGoroutines [failed (ErrorString "invalid totp code")]
           /\ out = (None,
                     Some (TraceErr (aggregate [ErrorString "invalid totp code"])
                                    [authn_failed_message]))).
Proof.
  split; [reflexivity|].
  apply (single_failure_aggregated (ErrorString "invalid totp code")).
  reflexivity.
Defined.

(** *** The non-registered-device error *)

Lemma range_respC_fatal before resp e rest errs0 :
  Forall (fun r => exists e', r = failed e' /\ ordinary e') before ->
  Err resp = Some e ->
  errors_Is e ErrUsingNonRegisteredDevice_id = true ->
  range_respC errs0 (before ++ resp :: rest)
  = ((None, Wrap (Some e) None), S (length before)).
Proof.
  intros Hall He Hfatal. revert errs0.
  induction Hall as [|r before (e' & -> & Ho) _ IH]; intros errs0; simpl.
  - rewrite (handle_response_fatal _ _ _ He Hfatal). reflexivity.
  - rewrite (handle_response_ordinary _ _ Ho), IH. reflexivity.
Qed.

(** C4: when a response carries an error that is the non-registered-device
    error, (1) the coordinator that finds it at the head of the channel
    returns at once, whatever goroutines are still running and whatever
    else is buffered; (2) in every run that reads this response it is the
    last one read, and the run returns no response and this error as
    [trace.Wrap] passes it on; (3) what is returned has the same underlying
    error, still is the non-registered-device error, and holds none of
    the errors read before; (4) as a function of the responses handed
    over, the result is fixed once this response comes after ordinary
    failures only, whatever would follow it. *)
Theorem fatal_error_returned_at_once (resp : MFAGoroutineResponse) (e : error) :
  Err resp = Some e ->
  errors_Is e ErrUsingNonRegisteredDevice_id = true ->
  (forall s buffered,
     respC s = resp :: buffered ->
     run s [resp] (None, Wrap (Some e) None))
  /\ (forall s received out,
        run s received out ->
        resp ∈ received ->
        last received = Some resp /\ out = (None, Wrap (Some e) None))
  /\ (exists r, Wrap (Some e) None = Some r
                /\ Unwrap r = Unwrap e
                /\ errors_Is r ErrUsingNonRegisteredDevice_id = true)
  /\ (forall before rest,
        Forall (fun r => exists e', r = failed e' /\ ordinary e') before ->
        HandleMFAGoroutines (before ++ resp :: rest)
        = (None, Wrap (Some e) None)).
Proof.
  intros He Hfatal. split; [|split; [|split]].
  - intros s buffered Hc. eapply run_recv_return; [exact Hc|].
    apply handle_response_fatal; assumption.
  - intros s received out Hrun.
    induction Hrun as [s i r received out _ _ _ IH
                      | s r buffered errs' received out _ Hh _ IH
                      | s r buffered out _ Hh
                      | s _ _]; intros Hin.
    + exact (IH Hin).
    + apply elem_of_cons in Hin as [->|Hin].
      * rewrite (handle_response_fatal _ _ _ He Hfatal) in Hh. discriminate.
      * destruct (IH Hin) as [Hl ->]. split; [|reflexivity].
        destruct received; [discriminate Hl | exact Hl].
    + apply list_elem_of_singleton in Hin as ->.
      rewrite (handle_response_fatal _ _ _ He Hfatal) in Hh.
      injection Hh as <-. split; reflexivity.
    + apply elem_of_nil in Hin as [].
  - destruct (Wrap_None_message e) as (r & Hr & Hu & His).
    exists r. rewrite His. auto.
  - intros before rest Hall. unfold HandleMFAGoroutines.
    rewrite (range_respC_fatal _ _ _ _ _ Hall He Hfatal). reflexivity.
Qed.

Lemma fatal_error_returned_at_once_witness :
  Err (failed ErrUsingNonRegisteredDevice) = Some ErrUsingNonRegisteredDevice
  /\ errors_Is ErrUsingNonRegisteredDevice ErrUsingNonRegisteredDevice_id = true
  /\ run {| running := [failed (ErrorString "invalid totp code")];
            respC := [failed ErrUsingNonRegisteredDevice];
            errs := [] |}
         [failed ErrUsingNonRegisteredDevice]
         (None, Some (TraceErr ErrUsingNonRegisteredDevice [])).
Proof.
  split; [reflexivity|]. split; [reflexivity|].
  apply (proj1 (fatal_error_returned_at_once
                  (failed ErrUsingNonRegisteredDevice)
                  ErrUsingNonRegisteredDevice eq_refl eq_refl)
               {| running := [failed (ErrorString "invalid totp code")];
                  respC := [failed ErrUsingNonRegisteredDevice];
                  errs := [] |}
               []).
  reflexivity.
Defined.

(** *** Two modalities, which both fail *)

Lemma run_second_first e1 e2 :
  ordinary e1 -> ordinary e2 ->
  run (started [failed e1; failed e2]) [failed e2; failed e1]
      (None, Some (TraceErr (aggregate [e2; e1]) [authn_failed_message])).
Proof.
  intros H1 H2.
  eapply (run_push _ 1); simpl; [reflexivity | unfold respC_capacity; lia |].
  eapply run_recv_continue; simpl;
    [reflexivity | apply handle_response_ordinary; exact H2 |].
  apply (run_one_by_one [failed e1] [e2]).
  repeat constructor; eauto.
Qed.

(** C5: with two goroutines that both fail in the ordinary way, every run
    reads both responses, in one of the two orders, and returns, with no
    response, one aggregate that holds both errors in the order in which
    their responses were read from the channel; both orders occur. *)
Theorem two_failures_aggregated_in_order (e1 e2 : error) :
  ordinary e1 -> ordinary e2 ->
  (forall received out,
     run (started [failed e1; failed e2]) received out ->
     exists ea eb,
       received = [failed ea; failed eb]
       /\ ((ea = e1 /\ eb = e2) \/ (ea = e2 /\ eb = e1))
       /\ out = HandleMFAGoroutines received
       /\ out = (None,
                 Some (TraceErr (aggregate [ea; eb]) [authn_failed_message])))
  /\ run (started [failed e1; failed e2]) [failed e1; failed e2]
         (None, Some (TraceErr (aggregate [e1; e2]) [authn_failed_message]))
  /\ run (started [failed e1; failed e2]) [failed e2; failed e1]
         (None, Some (TraceErr (aggregate [e2; e1]) [authn_failed_message])).
Proof.
  intros H1 H2.
  assert (Hall : Forall (fun resp => exists e, resp = failed e /\ ordinary e)
                        [failed e1; failed e2]) by (repeat constructor; eauto).
  split; [|split].
  - intros received out Hrun.
    pose proof (run_HandleMFAGoroutines _ _ _ Hrun) as HF.
    apply run_all_ordinary in Hrun as [Hp Hout]; [|exact Hall].
    simpl in Hp. symmetry in Hp.
    apply Permutation_length_2_inv in Hp as [-> | ->].
    + exists e1, e2. repeat split; auto.
    + exists e2, e1. repeat split; auto.
  - apply (run_one_by_one [failed e1; failed e2] []) in Hall. exact Hall.
  - apply run_second_first; assumption.
Qed.

Lemma two_failures_aggregated_in_order_witness :
  ordinary (ErrorString "invalid totp code")
  /\ ordinary (ErrorString "security key timeout")
  /\ run (started [failed (ErrorString "invalid totp code");
                   failed (ErrorString "security key timeout")])
         [failed (ErrorString "security key timeout");
          failed (ErrorString "invalid totp code")]
         (None,
          Some (TraceErr (aggregate [ErrorString "security key timeout";
                                     ErrorString "invalid totp code"])
                         [authn_failed_message])).
Proof.
  split; [reflexivity|]. split; [reflexivity|].
  apply (proj2 (proj2 (two_failures_aggregated_in_order
                         (ErrorString "invalid totp code")
                         (ErrorString "security key timeout")
                         eq_refl eq_refl))).
Defined.

(** *** The Webauthn origin and the prompt options *)

Lemma HasPrefix_append (prefix rest : string) :
  HasPrefix (prefix ++ rest)%string prefix = true.
Proof.
  unfold HasPrefix. apply String.prefix_correct.
  induction prefix as [|a prefix IH]; simpl;
    [destruct rest; reflexivity | f_equal; exact IH].
Qed.

Lemma GetWebauthnOrigin_prefixed (c : PromptConfig) :
  HasPrefix (GetWebauthnOrigin c) "https://" = true.
Proof.
  unfold GetWebauthnOrigin.
  destruct (HasPrefix (ProxyAddress c) "https://") eqn:H; simpl;
    [exact H | apply HasPrefix_append].
Qed.

(** X1: the origin always starts with "https://"; an address that already
    does is returned as it is, so computing the origin of an origin
    changes nothing; any other address, one that starts with "http://"
    included, is only prefixed: the scheme it has is not replaced. *)
Theorem GetWebauthnOrigin_https (c : PromptConfig) :
  HasPrefix (GetWebauthnOrigin c) "https://" = true
  /\ GetWebauthnOrigin (with_ProxyAddress (GetWebauthnOrigin c) c)
     = GetWebauthnOrigin c
  /\ (forall rest : string,
        ProxyAddress c = ("https://" ++ rest)%string ->
        GetWebauthnOrigin c = ProxyAddress c)
  /\ (forall rest : string,
        ProxyAddress c = ("http://" ++ rest)%string ->
        GetWebauthnOrigin c = ("https://http://" ++ rest)%string).
Proof.
  split; [apply GetWebauthnOrigin_prefixed|]. split; [|split].
  - pose proof (GetWebauthnOrigin_prefixed c) as H.
    unfold GetWebauthnOrigin at 1. simpl. rewrite H. reflexivity.
  - intros rest Hr. unfold GetWebauthnOrigin.
    rewrite Hr at 1. rewrite HasPrefix_append. reflexivity.
  - intros rest Hr. unfold GetWebauthnOrigin. rewrite Hr.
    replace (HasPrefix ("http://" ++ rest)%string "https://") with false;
      [reflexivity|].
    symmetry. apply not_true_is_false. unfold HasPrefix.
    rewrite String.prefix_correct. simpl. discriminate.
Qed.

(** X2: [GetRunOptions] never enables a modality that is not available:
    TOTP is prompted only when the challenge carries a TOTP sub-challenge,
    Webauthn only when the challenge carries a Webauthn sub-challenge and
    the platform supports it. *)
Theorem GetRunOptions_only_available (c : PromptConfig)
  (chal : MFAAuthenticateChallenge) :
  (PromptTOTP (GetRunOptions c chal).1 = true -> is_Some (TOTP chal))
  /\ (PromptWebauthn (GetRunOptions c chal).1 = true ->
      is_Some (WebauthnChallenge chal) /\ WebauthnSupported c = true).
Proof.
  destruct c as [pa pr dt q hijack att otp sup], chal as [[t|] [w|]];
    destruct hijack, att, otp, sup; vm_compute;
    repeat split; intros; try discriminate; eauto.
Qed.

(** X3: both modalities are prompted together exactly when both are
    available, OTP is not preferred, no attachment is asked for and stdin
    hijack is allowed. *)
Theorem GetRunOptions_both_iff (c : PromptConfig) (chal : MFAAuthenticateChallenge) :
  (PromptTOTP (GetRunOptions c chal).1 = true
   /\ PromptWebauthn (GetRunOptions c chal).1 = true)
  <-> (is_Some (TOTP chal) /\ is_Some (WebauthnChallenge chal)
       /\ WebauthnSupported c = true /\ PreferOTP c = false
       /\ AuthenticatorAttachment_ c = AttachmentAuto
       /\ AllowStdinHijack c = true).
Proof.
  destruct c as [pa pr dt q hijack att otp sup], chal as [[t|] [w|]];
    destruct hijack, att, otp, sup; vm_compute;
    split; intros H;
    repeat match goal with
      | H : _ /\ _ |- _ => destruct H
      | H : exists _, _ |- _ => destruct H
      end;
    try discriminate; repeat split; eauto.
Qed.

(** X4: [PreferOTP] takes precedence over the attachment and the hijack
    settings: when the challenge carries a TOTP sub-challenge and OTP is
    preferred, TOTP alone is prompted, without error. *)
Theorem GetRunOptions_PreferOTP (c : PromptConfig) (chal : MFAAuthenticateChallenge) :
  is_Some (TOTP chal) ->
  PreferOTP c = true ->
  GetRunOptions c chal = ({| PromptTOTP := true; PromptWebauthn := false |}, None).
Proof.
  destruct c as [pa pr dt q hijack att otp sup], chal as [[t|] [w|]];
    simpl; intros [x Hx] ->; try discriminate Hx;
    destruct hijack, att, sup; reflexivity.
Qed.

Lemma GetRunOptions_PreferOTP_witness :
  GetRunOptions
    {| ProxyAddress := "proxy.example.com:443"; PromptReason := "";
       DeviceType := ""; Quiet := false; AllowStdinHijack := false;
       AuthenticatorAttachment_ := AttachmentPlatform; PreferOTP := true;
       WebauthnSupported := true |}
    {| TOTP := Some MkTOTPChallenge;
       WebauthnChallenge := Some (MkCredentialAssertion "c") |}
  = ({| PromptTOTP := true; PromptWebauthn := false |}, None).
Proof.
  apply (GetRunOptions_PreferOTP
           {| ProxyAddress := "proxy.example.com:443"; PromptReason := "";
              DeviceType := ""; Quiet := false; AllowStdinHijack := false;
              AuthenticatorAttachment_ := AttachmentPlatform; PreferOTP := true;
              WebauthnSupported := true |}
           {| TOTP := Some MkTOTPChallenge;
              WebauthnChallenge := Some (MkCredentialAssertion "c") |}
           (ex_intro _ MkTOTPChallenge eq_refl) eq_refl).
Defined.

(** X5: with the default configuration exactly one modality is prompted
    whenever [GetRunOptions] succeeds: Webauthn when the challenge carries
    it and the platform supports it, TOTP otherwise. *)
Theorem DefaultPromptConfig_one_modality (proxyAddr : string)
  (hasPlatformSupport : bool) (chal : MFAAuthenticateChallenge) :
  (GetRunOptions (DefaultPromptConfig proxyAddr hasPlatformSupport) chal).2 = None ->
  (GetRunOptions (DefaultPromptConfig proxyAddr hasPlatformSupport) chal).1
  = if bool_decide (is_Some (WebauthnChallenge chal)) && hasPlatformSupport
    then {| PromptTOTP := false; PromptWebauthn := true |}
    else {| PromptTOTP := true; PromptWebauthn := false |}.
Proof.
  destruct chal as [[t|] [w|]], hasPlatformSupport; vm_compute;
    intros H; try discriminate H; reflexivity.
Qed.

Lemma DefaultPromptConfig_one_modality_witness :
  (GetRunOptions (DefaultPromptConfig "proxy.example.com:443" true)
     {| TOTP := Some MkTOTPChallenge;
        WebauthnChallenge := Some (MkCredentialAssertion "c") |}).1
  = {| PromptTOTP := false; PromptWebauthn := true |}.
Proof.
  apply (DefaultPromptConfig_one_modality "proxy.example.com:443" true
           {| TOTP := Some MkTOTPChallenge;
              WebauthnChallenge := Some (MkCredentialAssertion "c") |}
           eq_refl).
Defined.

Lemma provided_option_keeps (opt : PromptOpt) (c : PromptConfig) :
  provided_option opt ->
  ProxyAddress (opt c) = ProxyAddress c
  /\ AllowStdinHijack (opt c) = AllowStdinHijack c
  /\ AuthenticatorAttachment_ (opt c) = AuthenticatorAttachment_ c
  /\ PreferOTP (opt c) = PreferOTP c
  /\ WebauthnSupported (opt c) = WebauthnSupported c.
Proof. destruct 1; repeat split. Qed.

Lemma GetRunOptions_fields (c c' : PromptConfig) (chal : MFAAuthenticateChallenge) :
  AllowStdinHijack c' = AllowStdinHijack c ->
  AuthenticatorAttachment_ c' = AuthenticatorAttachment_ c ->
  PreferOTP c' = PreferOTP c ->
  WebauthnSupported c' = WebauthnSupported c ->
  GetRunOptions c' chal = GetRunOptions c chal.
Proof. unfold GetRunOptions. intros -> -> -> ->. reflexivity. Qed.

(** X6: the options of this package ([WithQuiet], [WithPromptReason],
    [WithPromptDeviceType]), however many and in whatever order they are
    applied, change neither the modalities [GetRunOptions] selects nor
    the Webauthn origin. *)
Theorem provided_options_keep_selection (opts : list PromptOpt)
  (c : PromptConfig) (chal : MFAAuthenticateChallenge) :
  Forall provided_option opts ->
  GetRunOptions (apply_options opts c) chal = GetRunOptions c chal
  /\ GetWebauthnOrigin (apply_options opts c) = GetWebauthnOrigin c.
Proof.
  intros Hall. revert c.
  induction Hall as [|opt opts Hopt _ IH]; intros c; simpl; [split; reflexivity|].
  destruct (IH (opt c)) as [IH1 IH2].
  destruct (provided_option_keeps opt c Hopt) as (Ha & Hh & Hat & Ho & Hs).
  split.
  - rewrite IH1. apply GetRunOptions_fields; assumption.
  - rewrite IH2. unfold GetWebauthnOrigin. rewrite Ha. reflexivity.
Qed.

Lemma provided_options_keep_selection_witness :
  Forall provided_option
    [WithQuiet; WithPromptReasonAdminAction; WithPromptDeviceType "registered"]
  /\ GetRunOptions
       (apply_options
          [WithQuiet; WithPromptReasonAdminAction; WithPromptDeviceType "registered"]
          (DefaultPromptConfig "proxy.example.com:443" true))
       {| TOTP := Some MkTOTPChallenge; WebauthnChallenge := None |}
     = GetRunOptions (DefaultPromptConfig "proxy.example.com:443" true)
         {| TOTP := Some MkTOTPChallenge; WebauthnChallenge := None |}.
Proof.
  assert (H : Forall provided_option
                [WithQuiet; WithPromptReasonAdminAction;
                 WithPromptDeviceType "registered"])
    by (repeat constructor).
  split; [exact H|].
  apply (proj1 (provided_options_keep_selection _
                  (DefaultPromptConfig "proxy.example.com:443" true)
                  {| TOTP := Some MkTOTPChallenge; WebauthnChallenge := None |}
                  H)).
Defined.

(** *** Every run of the coordinator *)

Lemma handle_response_cases errs0 resp :
  (succeeded resp /\ handle_response errs0 resp = Return (Resp resp, None))
  \/ (exists e, Err resp = Some e
                /\ errors_Is e ErrUsingNonRegisteredDevice_id = true
                /\ handle_response errs0 resp = Return (None, Wrap (Some e) None))
  \/ (exists e, Err resp = Some e /\ ordinary e
                /\ handle_response errs0 resp = Continue (errs0 ++ [e])).
Proof.
  unfold handle_response, succeeded, ordinary.
  destruct (Err resp) as [e|]; [|left; split; reflexivity].
  destruct (errors_Is e ErrUsingNonRegisteredDevice_id) eqn:E;
    right; [left|right]; exists e; repeat split; assumption.
Qed.

(** The three ways a run can end, read off the goroutines that are
    running or have pushed. *)
Lemma run_outcome_cases s received out :
  run s received out ->
  (exists resp, resp ∈ respC s ++ running s /\ succeeded resp
                /\ out = (Resp resp, None))
  \/ (exists resp e, resp ∈ respC s ++ running s /\ Err resp = Some e
                     /\ errors_Is e ErrUsingNonRegisteredDevice_id = true
                     /\ out = (None, Wrap (Some e) None))
  \/ (Forall failed_ordinarily (respC s ++ running s)
      /\ received ≡ₚ respC s ++ running s
      /\ out = all_failed (errs s ++ omap Err received)).
Proof.
  induction 1 as [s i resp received out Hi _ _ IH
                 | s resp buffered errs' received out Hc Hh _ IH
                 | s resp buffered out Hc Hh
                 | s Hr Hc]; simpl in *.
  - assert (Hp : (respC s ++ [resp]) ++ delete i (running s)
                 ≡ₚ respC s ++ running s).
    { rewrite <- app_assoc; simpl. apply Permutation_app_head.
      symmetry. apply delete_Permutation. exact Hi. }
    destruct IH as [(r & Hin & Hs & ->)|[(r & e & Hin & He & Hf & ->)|(Hall & Hperm & ->)]].
    + left. exists r. rewrite <- Hp. auto.
    + right; left. exists r, e. rewrite <- Hp. auto.
    + right; right. rewrite <- Hp. auto.
  - rewrite Hc. apply handle_response_Continue in Hh as (e & He & Ho & ->).
    destruct IH as [(r & Hin & Hs & ->)|[(r & e' & Hin & He' & Hf & ->)|(Hall & Hperm & ->)]].
    + left. exists r. simpl. rewrite elem_of_cons. auto.
    + right; left. exists r, e'. simpl. rewrite elem_of_cons. auto.
    + right; right. simpl. rewrite He. split; [|split].
      * constructor; [exists e; auto | exact Hall].
      * rewrite Hperm. reflexivity.
      * simpl. rewrite <- app_assoc. reflexivity.
  - rewrite Hc.
    destruct (handle_response_cases (errs s) resp)
      as [[Hs Hr]|[(e & He & Hf & Hr)|(e & He & Ho & Hr)]];
      rewrite Hr in Hh; try discriminate Hh; injection Hh as <-.
    + left. exists resp. simpl. rewrite elem_of_cons. auto.
    + right; left. exists resp, e. simpl. rewrite elem_of_cons. auto.
  - right; right. rewrite Hr, Hc, !app_nil_r.
    split; [constructor | split; reflexivity].
Qed.

(** X7: every run ends in one of three ways: with the response of a
    goroutine that succeeded and no error; with no response and the
    non-registered-device error of a goroutine; or, when every goroutine
    failed in the ordinary way, after reading all of the responses, with
    no response and the aggregate of all the errors in the order read.
    A response and an error are never returned together. *)
Theorem run_outcome (tasks received : list MFAGoroutineResponse) (out : outcome) :
  run (started tasks) received out ->
  ((exists resp, resp ∈ tasks /\ succeeded resp /\ out = (Resp resp, None))
   \/ (exists resp e, resp ∈ tasks /\ Err resp = Some e
                      /\ errors_Is e ErrUsingNonRegisteredDevice_id = true
                      /\ out = (None, Wrap (Some e) None))
   \/ (Forall failed_ordinarily tasks
       /\ received ≡ₚ tasks
       /\ out = all_failed (omap Err received)))
  /\ (out.1 = None \/ out.2 = None).
Proof.
  intros Hrun. apply run_outcome_cases in Hrun. simpl in Hrun.
  split; [exact Hrun|].
  destruct Hrun as [(r & _ & _ & ->)|[(r & e & _ & _ & _ & ->)|(_ & _ & ->)]];
    simpl; auto.
Qed.

Lemma run_outcome_two_tasks :
  run (started [failed (ErrorString "invalid totp code"); assertion_ok])
      [assertion_ok] assertion_out.
Proof.
  eapply (run_push _ 1); simpl; [reflexivity | unfold respC_capacity; lia|].
  eapply run_recv_return; simpl; reflexivity.
Qed.

Lemma run_outcome_witness :
  run (started [failed (ErrorString "invalid totp code"); assertion_ok])
      [assertion_ok] assertion_out
  /\ (assertion_out.1 = None \/ assertion_out.2 = None).
Proof.
  split; [exact run_outcome_two_tasks|].
  apply (proj2 (run_outcome
                  [failed (ErrorString "invalid totp code"); assertion_ok]
                  [assertion_ok] assertion_out run_outcome_two_tasks)).
Defined.

(** X8: a success wins over ordinary failures: when some goroutine
    succeeds and none reports the non-registered-device error, every run
    returns the response of a goroutine that succeeded, and no error,
    whatever the order in which the goroutines finish. *)
Theorem run_success_wins (tasks received : list MFAGoroutineResponse)
  (out : outcome) :
  Exists succeeded tasks ->
  Forall (fun resp => ~ fatal resp) tasks ->
  run (started tasks) received out ->
  exists resp, resp ∈ tasks /\ succeeded resp /\ out = (Resp resp, None).
Proof.
  intros Hs Hnf Hrun. apply run_outcome_cases in Hrun. simpl in Hrun.
  destruct Hrun as [H|[(r & e & Hin & He & Hf & _)|(Hall & _ & _)]]; [exact H| |].
  - exfalso. rewrite Forall_forall in Hnf. apply (Hnf r Hin). exists e. auto.
  - exfalso. apply Exists_exists in Hs as (r & Hin & Hr).
    rewrite Forall_forall in Hall. destruct (Hall r Hin) as (e & He & _).
    unfold succeeded in Hr. congruence.
Qed.

Lemma run_success_wins_witness :
  Exists succeeded [failed (ErrorString "invalid totp code"); assertion_ok]
  /\ run (started [failed (ErrorString "invalid totp code"); assertion_ok])
         [failed (ErrorString "invalid totp code"); assertion_ok] assertion_out
  /\ exists resp,
       resp ∈ [failed (ErrorString "invalid totp code"); assertion_ok]
       /\ succeeded resp /\ assertion_out = (Resp resp, None).
Proof.
  assert (Hs : Exists succeeded
                 [failed (ErrorString "invalid totp code"); assertion_ok])
    by (apply Exists_cons_tl, Exists_cons_hd; reflexivity).
  assert (Hrun : run (started [failed (ErrorString "invalid totp code");
                               assertion_ok])
                     [failed (ErrorString "invalid totp code"); assertion_ok]
                     assertion_out).
  { eapply (run_push _ 0); simpl; [reflexivity | unfold respC_capacity; lia|].
    eapply run_recv_continue; simpl; [reflexivity | reflexivity |].
    eapply (run_push _ 0); simpl; [reflexivity | unfold respC_capacity; lia|].
    eapply run_recv_return; simpl; reflexivity. }
  split; [exact Hs|]. split; [exact Hrun|].
  apply (run_success_wins
           [failed (ErrorString "invalid totp code"); assertion_ok]
           [failed (ErrorString "invalid totp code"); assertion_ok]
           assertion_out Hs); [|exact Hrun].
  repeat constructor; intros (e & He & Hf); simpl in He;
    [injection He as <-; discriminate Hf | discriminate He].
Defined.

(** X9: with no goroutine started the channel is closed while empty, and
    the coordinator returns neither a response nor an error. *)
Theorem run_without_goroutines (received : list MFAGoroutineResponse)
  (out : outcome) :
  run (started []) received out ->
  received = [] /\ out = (None, None).
Proof.
  intros Hrun. apply run_outcome_cases in Hrun. simpl in Hrun.
  destruct Hrun as [(r & Hin & _)|[(r & e & Hin & _)|(_ & Hp & ->)]];
    try (apply elem_of_nil in Hin; destruct Hin).
  apply Permutation_nil_r in Hp as ->. split; reflexivity.
Qed.

Lemma run_without_goroutines_witness :
  run (started []) [] (None, None)
  /\ ([] : list MFAGoroutineResponse) = []
  /\ ((None, None) : outcome) = (None, None).
Proof.
  assert (H : run (started []) [] (None, None))
    by (apply (run_closed (started [])); reflexivity).
  split; [exact H|].
  apply (run_without_goroutines [] (None, None) H).
Defined.


End MfaFacts.

(** ** The client cache *)

Module SyncclientFacts.
Import Trace Syncclient.

Example test_no_cert_yet :
  let '(r, _, w) := Get (test_cache None None None) world0 in
  r = Returned None None (CompareFailed no_certificate_message)
  /\ builderCalls w = 0.
Proof. split; reflexivity. Qed.

Example test_cert_but_no_cache :
  let '(r, c, w) := Get (test_cache cert1 None None) world0 in
  r = Returned (Some (SyncClientAt 100)) (Some (SyncClientAt 100)) None
  /\ cachedCert c = cert1 /\ builderCalls w = 1 /\ goroutines w = [].
Proof. repeat split; reflexivity. Qed.

Example test_cert_and_fresh_cache :
  let '(r, _, w) := Get (test_cache cert1 cert1 (Some (SyncClientAt 7))) world0 in
  r = Returned (Some (SyncClientAt 7)) (Some (SyncClientAt 7)) None
  /\ builderCalls w = 0.
Proof. split; reflexivity. Qed.

Example test_cert_and_stale_cache :
  let '(r, c, w) := Get (test_cache cert2 cert1 (Some (SyncClientAt 7))) world0 in
  r = Returned (Some (SyncClientAt 100)) (Some (SyncClientAt 100)) None
  /\ cachedCert c = cert2 /\ builderCalls w = 1
  /\ goroutines w = [RetireClient (SyncClientAt 7)].
Proof. repeat split; reflexivity. Qed.

Lemma len_0 (cert : bytes) : len cert = 0 <-> cert = None \/ cert = Some [].
Proof.
  destruct cert as [[|b l]|]; unfold len; simpl; split; intros H; auto;
    try discriminate; destruct H as [H|H]; discriminate H.
Qed.

(** The test of [Get] for "no certificate". *)
Lemma no_certificate_test (cert : bytes) :
  bool_decide (cert = None) || bool_decide (len cert = 0)
  = bool_decide (len cert = 0).
Proof.
  destruct cert as [l|]; [reflexivity|]. reflexivity.
Qed.

(** The test of [Get] for a cache hit fails when a rebuild is due. *)
Lemma hit_test_false (c : Cache) (cert : bytes) :
  cachedClient c = None \/ bytes_Equal cert (cachedCert c) = false ->
  bool_decide (cachedClient c ≠ None) && bytes_Equal cert (cachedCert c) = false.
Proof.
  intros [H|H]; rewrite H; [reflexivity|]. apply andb_false_r.
Qed.

(** C6: when the getter returns, without an error, a [nil] or an empty
    certificate, [Get] returns no client, no release function and a
    CompareFailed error ("no certificate ..."), leaves the cache as it was
    and does not call the builder. *)
Theorem Get_no_certificate (c : Cache) (w : World) (cert : bytes) :
  certGetter c (getterCalls w) = (cert, None) ->
  cert = None \/ cert = Some [] ->
  Get c w = (Returned None None (Some (TraceErr (CompareFailedError
                                   no_certificate_message) [])),
             c, called_getter w)
  /\ IsCompareFailed (TraceErr (CompareFailedError no_certificate_message) []) = true
  /\ builderCalls (Get c w).2 = builderCalls w.
Proof.
  intros Hg Hc. apply len_0 in Hc.
  assert (HG : Get c w = (Returned None None (CompareFailed no_certificate_message),
                          c, called_getter w)).
  { unfold Get. rewrite Hg, no_certificate_test.
    rewrite bool_decide_eq_true_2 by exact Hc. reflexivity. }
  rewrite HG. repeat split.
Qed.

Lemma Get_no_certificate_witness :
  certGetter (test_cache None cert1 (Some (SyncClientAt 7))) (getterCalls world0)
  = (None, None)
  /\ builderCalls (Get (test_cache None cert1 (Some (SyncClientAt 7))) world0).2
     = builderCalls world0.
Proof.
  split; [reflexivity|].
  apply (Get_no_certificate (test_cache None cert1 (Some (SyncClientAt 7)))
           world0 None eq_refl (or_introl eq_refl)).
Defined.

(** What [Get] does when a rebuild is due and a certificate is there. *)
Lemma Get_miss (c : Cache) (w : World) (cert : bytes)
  (fresh : option SyncClient) (berr : option error) :
  certGetter c (getterCalls w) = (cert, None) ->
  len cert <> 0 ->
  cachedClient c = None \/ bytes_Equal cert (cachedCert c) = false ->
  clientBuilder c (builderCalls w) = (fresh, berr) ->
  Get c w =
    match berr with
    | Some _ => (Returned None None (Wrap berr None), c,
                 called_builder (called_getter w))
    | None =>
        return_cached (store cert fresh c)
          match cachedClient c with
          | Some old => go (RetireClient old) (called_builder (called_getter w))
          | None => called_builder (called_getter w)
          end
    end.
Proof.
  intros Hg Hl Hmiss Hb. unfold Get.
  rewrite Hg, no_certificate_test, (bool_decide_eq_false_2 _ Hl); simpl.
  rewrite (hit_test_false _ _ Hmiss), Hb.
  destruct berr; reflexivity.
Qed.

(** What [Get] does on a cache hit. *)
Lemma Get_hit (c : Cache) (w : World) (cert : bytes) (client : SyncClient) :
  certGetter c (getterCalls w) = (cert, None) ->
  len cert <> 0 ->
  cachedClient c = Some client ->
  bytes_Equal cert (cachedCert c) = true ->
  Get c w = (Returned (Some client) (Some client) None, c,
             LockClient client (called_getter w)).
Proof.
  intros Hg Hl Hc He. unfold Get.
  rewrite Hg, no_certificate_test, (bool_decide_eq_false_2 _ Hl); simpl.
  rewrite Hc, He; simpl. unfold return_cached. rewrite Hc. reflexivity.
Qed.

(** C7: if a call of [Get] succeeded and built its client, and at the next
    call the getter returns the same certificate bytes, then the next call
    returns the very same client (and the release function of its usage
    lock), leaves the cache as it is and does not call the builder: over
    the two calls the builder is called exactly once. *)
Theorem Get_twice_same_certificate (c c1 : Cache) (w w1 : World)
  (client : SyncClient) (release : option SyncClient) (cert cert' : bytes) :
  certGetter c (getterCalls w) = (cert, None) ->
  Get c w = (Returned (Some client) release None, c1, w1) ->
  builderCalls w1 = S (builderCalls w) ->
  certGetter c1 (getterCalls w1) = (cert', None) ->
  bytes_Equal cert' cert = true ->
  Get c1 w1 = (Returned (Some client) (Some client) None, c1,
               LockClient client (called_getter w1))
  /\ builderCalls (Get c1 w1).2 = builderCalls w1
  /\ builderCalls (Get c1 w1).2 = S (builderCalls w).
Proof.
  intros Hg HG Hbuilt Hg' Hsame.
  assert (Hl : len cert <> 0).
  { intros Hl. unfold Get in HG.
    rewrite Hg, no_certificate_test, (bool_decide_eq_true_2 _ Hl) in HG.
    discriminate HG. }
  assert (Hl' : len cert' <> 0).
  { unfold bytes_Equal in Hsame. apply bool_decide_eq_true_1 in Hsame.
    unfold len in *. rewrite Hsame. exact Hl. }
  assert (Hc1 : cachedClient c1 = Some client /\ cachedCert c1 = cert).
  { destruct (bool_decide (cachedClient c ≠ None)
              && bytes_Equal cert (cachedCert c)) eqn:Hhit.
    - (* a hit would not have called the builder *)
      apply andb_true_iff in Hhit as [Hc He].
      apply bool_decide_eq_true_1 in Hc.
      destruct (cachedClient c) as [old|] eqn:Hold; [|congruence].
      rewrite (Get_hit c w cert old Hg Hl Hold He) in HG.
      injection HG as _ _ _ <-. simpl in Hbuilt. lia.
    - assert (Hmiss : cachedClient c = None
                      \/ bytes_Equal cert (cachedCert c) = false).
      { apply andb_false_iff in Hhit as [Hc|He]; [left|right; exact He].
        apply bool_decide_eq_false_1 in Hc.
        destruct (cachedClient c); [exfalso; apply Hc; discriminate | reflexivity]. }
      destruct (clientBuilder c (builderCalls w)) as [fresh berr] eqn:Hb.
      rewrite (Get_miss c w cert fresh berr Hg Hl Hmiss Hb) in HG.
      destruct berr; [discriminate HG|].
      unfold return_cached in HG; simpl in HG.
      destruct fresh as [f|]; [|discriminate HG].
      injection HG as <- _ <- _. split; reflexivity. }
  destruct Hc1 as [Hc1 Hcert].
  assert (HG' : Get c1 w1 = (Returned (Some client) (Some client) None, c1,
                             LockClient client (called_getter w1))).
  { apply (Get_hit c1 w1 cert' client Hg' Hl' Hc1). rewrite Hcert. exact Hsame. }
  rewrite HG'. simpl. repeat split. exact Hbuilt.
Qed.

Lemma Get_twice_same_certificate_witness :
  Get (test_cache cert1 None None) world0
  = (Returned (Some (SyncClientAt 100)) (Some (SyncClientAt 100)) None,
     test_cache cert1 cert1 (Some (SyncClientAt 100)),
     LockClient (SyncClientAt 100) (called_builder (called_getter world0)))
  /\ Get (test_cache cert1 cert1 (Some (SyncClientAt 100)))
         (LockClient (SyncClientAt 100) (called_builder (called_getter world0)))
     = (Returned (Some (SyncClientAt 100)) (Some (SyncClientAt 100)) None,
        test_cache cert1 cert1 (Some (SyncClientAt 100)),
        LockClient (SyncClientAt 100)
          (called_getter
             (LockClient (SyncClientAt 100)
                (called_builder (called_getter world0))))).
Proof.
  split; [reflexivity|].
  apply (Get_twice_same_certificate
           (test_cache cert1 None None)
           (test_cache cert1 cert1 (Some (SyncClientAt 100)))
           world0
           (LockClient (SyncClientAt 100) (called_builder (called_getter world0)))
           (SyncClientAt 100) (Some (SyncClientAt 100)) cert1 cert1
           eq_refl eq_refl eq_refl eq_refl eq_refl).
Defined.

(** C8, as stated, fails: the cache holds a client built for [cert1], the
    getter now returns empty bytes, which differ from the stored ones, and
    [Get] does not call the builder at all; likewise when no client is
    cached and no certificate has been issued yet (the row "no cert yet"
    of the test table).  In both cases [Get] fails with CompareFailed. *)
Lemma Get_differing_certificate_without_build :
  bytes_Equal (Some []) (cachedCert (test_cache (Some []) cert1 (Some (SyncClientAt 7))))
  = false
  /\ Get (test_cache (Some []) cert1 (Some (SyncClientAt 7))) world0
     = (Returned None None (CompareFailed no_certificate_message),
        test_cache (Some []) cert1 (Some (SyncClientAt 7)),
        called_getter world0)
  /\ builderCalls (Get (test_cache (Some []) cert1 (Some (SyncClientAt 7))) world0).2
     = 0
  /\ cachedClient (test_cache None None None) = None
  /\ builderCalls (Get (test_cache None None None) world0).2 = 0.
Proof. repeat split; reflexivity. Qed.

(** C8, amended: at every call of [Get] at which the getter returns,
    without an error, a non-empty certificate, and either no client is
    cached or the certificate differs from the stored bytes, the builder
    is called exactly once; when it returns a client and no error, [Get]
    returns that client with the release function of its usage lock,
    stores the certificate and the client, and starts one goroutine that
    retires the previous client if there was one, and none otherwise: the
    retirement is started, not run, by [Get]. *)
Theorem Get_rebuild (c : Cache) (w : World) (cert : bytes)
  (fresh : option SyncClient) (berr : option error) :
  certGetter c (getterCalls w) = (cert, None) ->
  len cert <> 0 ->
  cachedClient c = None \/ bytes_Equal cert (cachedCert c) = false ->
  clientBuilder c (builderCalls w) = (fresh, berr) ->
  builderCalls (Get c w).2 = S (builderCalls w)
  /\ forall client,
       fresh = Some client -> berr = None ->
       (Get c w).1.1 = Returned (Some client) (Some client) None
       /\ cachedCert (Get c w).1.2 = cert
       /\ cachedClient (Get c w).1.2 = Some client
       /\ goroutines (Get c w).2
          = goroutines w ++ match cachedClient c with
                            | Some old => [RetireClient old]
                            | None => []
                            end.
Proof.
  intros Hg Hl Hmiss Hb.
  rewrite (Get_miss c w cert fresh berr Hg Hl Hmiss Hb).
  split.
  - destruct berr; [reflexivity|].
    unfold return_cached; simpl.
    destruct fresh, (cachedClient c); reflexivity.
  - intros client -> ->. unfold return_cached; simpl.
    destruct (cachedClient c); simpl; repeat split;
      try reflexivity; symmetry; apply app_nil_r.
Qed.

Lemma Get_rebuild_witness :
  certGetter (test_cache cert2 cert1 (Some (SyncClientAt 7))) (getterCalls world0)
  = (cert2, None)
  /\ len cert2 <> 0
  /\ bytes_Equal cert2 (cachedCert (test_cache cert2 cert1 (Some (SyncClientAt 7))))
     = false
  /\ builderCalls (Get (test_cache cert2 cert1 (Some (SyncClientAt 7))) world0).2
     = S (builderCalls world0).
Proof.
  split; [reflexivity|]. split; [discriminate|]. split; [reflexivity|].
  apply (Get_rebuild (test_cache cert2 cert1 (Some (SyncClientAt 7))) world0
           cert2 (Some (SyncClientAt 100)) None
           eq_refl ltac:(discriminate) (or_intror eq_refl) eq_refl).
Defined.

(** C10: when a rebuild is due and the builder returns an error, [Get]
    returns no client, no release function and that error as [trace.Wrap]
    passes it on; the cache is the one before the call, with [cachedCert]
    and [cachedClient] as they were; no goroutine is started and no usage
    lock taken, so the previous client is not retired; the builder was
    called once.  The next call therefore starts from the old cache. *)
Theorem Get_builder_error (c : Cache) (w : World) (cert : bytes)
  (fresh : option SyncClient) (e : error) :
  certGetter c (getterCalls w) = (cert, None) ->
  len cert <> 0 ->
  cachedClient c = None \/ bytes_Equal cert (cachedCert c) = false ->
  clientBuilder c (builderCalls w) = (fresh, Some e) ->
  Get c w = (Returned None None (Wrap (Some e) None), c,
             called_builder (called_getter w))
  /\ cachedCert (Get c w).1.2 = cachedCert c
  /\ cachedClient (Get c w).1.2 = cachedClient c
  /\ goroutines (Get c w).2 = goroutines w
  /\ usageLocks (Get c w).2 = usageLocks w
  /\ builderCalls (Get c w).2 = S (builderCalls w)
  /\ exists r, Wrap (Some e) None = Some r /\ Unwrap r = Unwrap e.
Proof.
  intros Hg Hl Hmiss Hb.
  rewrite (Get_miss c w cert fresh (Some e) Hg Hl Hmiss Hb).
  repeat split.
  destruct (MfaFacts.Wrap_None_message e) as (r & Hr & Hu & _). eauto.
Qed.

Lemma Get_builder_error_witness :
  Get {| cachedCert := cert1; cachedClient := Some (SyncClientAt 7);
         clientBuilder := fun _ => (None, Some (ErrorString "dial failed"));
         certGetter := fun _ => (cert2, None) |} world0
  = (Returned None None (Some (TraceErr (ErrorString "dial failed") [])),
     {| cachedCert := cert1; cachedClient := Some (SyncClientAt 7);
        clientBuilder := fun _ => (None, Some (ErrorString "dial failed"));
        certGetter := fun _ => (cert2, None) |},
     called_builder (called_getter world0)).
Proof.
  apply (Get_builder_error
           {| cachedCert := cert1; cachedClient := Some (SyncClientAt 7);
              clientBuilder := fun _ => (None, Some (ErrorString "dial failed"));
              certGetter := fun _ => (cert2, None) |}
           world0 cert2 None (ErrorString "dial failed")
           eq_refl ltac:(discriminate) (or_intror eq_refl) eq_refl).
Defined.

(** *** Every call of [Get] *)

Ltac Get_shape :=
  unfold CompareFailed; repeat split; intros;
  repeat match goal with
    | H : is_Some None |- _ => destruct H as [? H]; discriminate H
    | H : Some _ = Some _ |- _ => injection H as <-
    | H : Some _ = None |- _ => discriminate H
    | H : None = Some _ |- _ => discriminate H
    end;
  eauto.

(** X11: [Get] hands out a client exactly when it reports no error, and
    then it is the client the cache now holds, together with the release
    function of that client, for which one usage lock was taken.  When it
    reports an error (the getter failed, no certificate, the builder
    failed) it hands out nothing, and the cache, the usage locks and the
    goroutines are as before the call.  It panics only when the builder
    returned neither a client nor an error. *)
Theorem Get_result_shape (c : Cache) (w : World) :
  match Get c w with
  | (Returned client release err, c', w') =>
      release = client
      /\ (err = None <-> is_Some client)
      /\ (forall cl, client = Some cl ->
            cachedClient c' = Some cl
            /\ usageLocks w' = cl :: usageLocks w)
      /\ (client = None ->
            c' = c /\ usageLocks w' = usageLocks w
            /\ goroutines w' = goroutines w)
  | (Panicked, _, _) =>
      clientBuilder c (builderCalls w) = (None, None)
  end.
Proof.
  unfold Get, return_cached.
  destruct (certGetter c (getterCalls w)) as [cert [e|]]; simpl.
  { destruct e; simpl; Get_shape. }
  destruct (bool_decide (cert = None) || bool_decide (len cert = 0)); simpl.
  { Get_shape. }
  destruct (bool_decide (cachedClient c ≠ None)
            && bytes_Equal cert (cachedCert c)) eqn:Hhit.
  - destruct (cachedClient c) as [cl|] eqn:Hc; [|discriminate Hhit].
    Get_shape.
  - destruct (clientBuilder c (builderCalls w)) as [fresh [e|]] eqn:Hb; simpl.
    { destruct e; simpl; Get_shape. }
    destruct fresh as [cl|]; simpl; [|reflexivity].
    destruct (cachedClient c); simpl; Get_shape.
Qed.

(** X12: one call of [Get] calls the getter exactly once and the builder
    at most once; it starts at most one goroutine, after the ones already
    started, and starts one only in a call in which the builder was
    called and a client was cached before. *)
Theorem Get_calls (c : Cache) (w : World) :
  getterCalls (Get c w).2 = S (getterCalls w)
  /\ (builderCalls (Get c w).2 = builderCalls w
      \/ builderCalls (Get c w).2 = S (builderCalls w))
  /\ (goroutines (Get c w).2 = goroutines w
      \/ exists old,
           cachedClient c = Some old
           /\ builderCalls (Get c w).2 = S (builderCalls w)
           /\ goroutines (Get c w).2 = goroutines w ++ [RetireClient old]).
Proof.
  unfold Get, return_cached.
  destruct (certGetter c (getterCalls w)) as [cert [e|]]; simpl; [auto|].
  destruct (bool_decide (cert = None) || bool_decide (len cert = 0)); simpl; [auto|].
  destruct (bool_decide (cachedClient c ≠ None)
            && bytes_Equal cert (cachedCert c)).
  - destruct (cachedClient c); simpl; auto.
  - destruct (clientBuilder c (builderCalls w)) as [fresh [e|]]; simpl; [auto|].
    destruct fresh, (cachedClient c) as [old|]; simpl; eauto 10.
Qed.

(** *** Sequences of calls *)

Lemma built_S (c : Cache) (calls : nat) :
  built c (S calls)
  = built c calls ++ match clientBuilder c calls with
                     | (Some client, None) => [client]
                     | _ => []
                     end.
Proof.
  unfold built. rewrite seq_S, omap_app. simpl.
  destruct (clientBuilder c calls) as [[client|] [e|]]; reflexivity.
Qed.

Lemma Get_builder (c : Cache) (w : World) :
  clientBuilder (Get c w).1.2 = clientBuilder c
  /\ certGetter (Get c w).1.2 = certGetter c.
Proof.
  unfold Get, return_cached.
  destruct (certGetter c (getterCalls w)) as [cert [e|]]; simpl; [auto|].
  destruct (bool_decide (cert = None) || bool_decide (len cert = 0)); simpl; [auto|].
  destruct (bool_decide (cachedClient c ≠ None)
            && bytes_Equal cert (cachedCert c)).
  - destruct (cachedClient c); simpl; auto.
  - destruct (clientBuilder c (builderCalls w)) as [fresh [e|]]; simpl; [auto|].
    destruct fresh; simpl; auto.
Qed.

Lemma built_ext (c c' : Cache) (calls : nat) :
  clientBuilder c' = clientBuilder c -> built c' calls = built c calls.
Proof. unfold built. intros ->. reflexivity. Qed.

Lemma Get_accounted (c : Cache) (w : World) :
  accounted c w ->
  (Get c w).1.1 <> Panicked ->
  accounted (Get c w).1.2 (Get c w).2.
Proof.
  unfold accounted, Get, return_cached, retired.
  destruct (certGetter c (getterCalls w)) as [cert [e|]]; simpl; [auto|].
  destruct (bool_decide (cert = None) || bool_decide (len cert = 0)); simpl; [auto|].
  destruct (bool_decide (cachedClient c ≠ None)
            && bytes_Equal cert (cachedCert c)).
  - destruct (cachedClient c) eqn:Hc; simpl; rewrite ?Hc; [auto|].
    intros _ Hp. destruct Hp. reflexivity.
  - destruct (clientBuilder c (builderCalls w)) as [fresh [e|]] eqn:Hb; simpl.
    + intros H _.
      change (built c (S (builderCalls w))
              = ((fun g => match g with RetireClient client => client end)
                   <$> goroutines w) ++ option_list (cachedClient c)).
      rewrite built_S, Hb, H. destruct fresh; apply app_nil_r.
    + destruct fresh as [cl|]; simpl; [|intros _ Hp; destruct Hp; reflexivity].
      intros H _.
      rewrite (built_ext c (store cert (Some cl) c)) by reflexivity.
      destruct (cachedClient c) as [old|]; simpl in *;
        rewrite built_S, Hb, H; rewrite ?fmap_app, ?app_nil_r; reflexivity.
Qed.

Lemma Get_Panicked (c : Cache) (w : World) :
  (Get c w).1.1 = Panicked -> clientBuilder c (builderCalls w) = (None, None).
Proof.
  unfold Get, return_cached.
  destruct (certGetter c (getterCalls w)) as [cert [e|]]; simpl; [discriminate|].
  destruct (bool_decide (cert = None) || bool_decide (len cert = 0)); simpl;
    [discriminate|].
  destruct (bool_decide (cachedClient c ≠ None)
            && bytes_Equal cert (cachedCert c)) eqn:Hhit.
  - destruct (cachedClient c); [discriminate | discriminate Hhit].
  - destruct (clientBuilder c (builderCalls w)) as [[cl|] [e|]]; simpl;
      try discriminate. reflexivity.
Qed.

(** X13: through any number of calls of [Get] on a cache made by
    [NewCache] (or on any cache and world that agree in this way), with a
    builder that never returns neither client nor error, no call panics
    and no client is lost or retired twice: the clients built so far, in
    the order built, are the retired ones, in the order retired, followed
    by the cached one, if any. *)
Theorem Gets_accounted (n : nat) (c : Cache) (w : World) :
  (forall i, clientBuilder c i <> (None, None)) ->
  built c (builderCalls w) = retired w ++ option_list (cachedClient c) ->
  (Panicked ∉ ((Gets n c w).1).1)
  /\ built (Gets n c w).1.2 (builderCalls (Gets n c w).2)
     = retired (Gets n c w).2 ++ option_list (cachedClient (Gets n c w).1.2).
Proof.
  revert c w. induction n as [|n IH]; intros c w Hb Hacc; simpl.
  - split; [apply not_elem_of_nil | exact Hacc].
  - pose proof (Get_Panicked c w) as Hpanic.
    pose proof (Get_accounted c w Hacc) as Hstep.
    pose proof (Get_builder c w) as [Hbuilder _].
    destruct (Get c w) as [[r c'] w']. simpl in *.
    destruct r as [client release err|]; [|destruct (Hb _ (Hpanic eq_refl))].
    specialize (Hstep ltac:(discriminate)).
    assert (Hb' : forall i, clientBuilder c' i <> (None, None))
      by (rewrite Hbuilder; exact Hb).
    destruct (IH c' w' Hb' Hstep) as [IH1 IH2].
    destruct (Gets n c' w') as [[rs c''] w'']. simpl in *.
    split; [|exact IH2].
    intros [Heq|Hin]%elem_of_cons; [discriminate Heq | exact (IH1 Hin)].
Qed.

Lemma Gets_accounted_witness :
  (forall i, mockClientBuilder i <> (None, None))
  /\ built (Gets 3 (NewCache mockClientBuilder
                      (fun n => (if Nat.even n then cert1 else cert2, None)))
              world0).1.2
       (builderCalls
          (Gets 3 (NewCache mockClientBuilder
                     (fun n => (if Nat.even n then cert1 else cert2, None)))
             world0).2)
     = retired (Gets 3 (NewCache mockClientBuilder
                          (fun n => (if Nat.even n then cert1 else cert2, None)))
                  world0).2
       ++ option_list
            (cachedClient
               (Gets 3 (NewCache mockClientBuilder
                          (fun n => (if Nat.even n then cert1 else cert2, None)))
                  world0).1.2).
Proof.
  split; [intros i; discriminate|].
  apply (proj2 (Gets_accounted 3
                  (NewCache mockClientBuilder
                     (fun n => (if Nat.even n then cert1 else cert2, None)))
                  world0 ltac:(intros i; discriminate) eq_refl)).
Defined.

(** X14: on a cache made by [NewCache], as long as the getter keeps
    returning the same non-empty certificate and the first call of the
    builder succeeds, any number of calls of [Get] calls the builder
    once: every call returns the client built by the first one, none is
    retired, and each call takes one usage lock. *)
Theorem Gets_same_certificate (n : nat)
  (clientBuilder : nat -> option SyncClient * option error)
  (certGetter : nat -> bytes * option error)
  (cert : bytes) (client : SyncClient) (w : World) :
  (forall i, certGetter i = (cert, None)) ->
  len cert <> 0 ->
  clientBuilder (builderCalls w) = (Some client, None) ->
  Gets (S n) (NewCache clientBuilder certGetter) w
  = (replicate (S n) (Returned (Some client) (Some client) None),
     store cert (Some client) (NewCache clientBuilder certGetter),
     {| getterCalls := S n + getterCalls w;
        builderCalls := S (builderCalls w);
        goroutines := goroutines w;
        usageLocks := replicate (S n) client ++ usageLocks w |}).
Proof.
  intros Hg Hl Hb.
  set (c1 := store cert (Some client) (NewCache clientBuilder certGetter)).
  assert (Hhits : forall m w1,
             Gets m c1 w1
             = (replicate m (Returned (Some client) (Some client) None), c1,
                {| getterCalls := m + getterCalls w1;
                   builderCalls := builderCalls w1;
                   goroutines := goroutines w1;
                   usageLocks := replicate m client ++ usageLocks w1 |})).
  { induction m as [|m IH]; intros w1; simpl; [destruct w1; reflexivity|].
    rewrite (Get_hit c1 w1 cert client (Hg _) Hl eq_refl)
      by (unfold bytes_Equal; apply bool_decide_eq_true_2; reflexivity).
    rewrite IH. simpl.
    replace (m + S (getterCalls w1)) with (S (m + getterCalls w1)) by lia.
    replace (replicate m client ++ client :: usageLocks w1)
      with (client :: replicate m client ++ usageLocks w1); [reflexivity|].
    change (client :: replicate m client ++ usageLocks w1)
      with (replicate (S m) client ++ usageLocks w1).
    rewrite replicate_S_end, <- app_assoc. reflexivity. }
  cbn [Gets].
  rewrite (Get_miss (NewCache clientBuilder certGetter) w cert (Some client) None
             (Hg _) Hl (or_introl eq_refl) Hb).
  simpl. fold c1. rewrite Hhits. simpl.
  replace (n + S (getterCalls w)) with (S (n + getterCalls w)) by lia.
  replace (replicate n client ++ client :: usageLocks w)
    with (client :: replicate n client ++ usageLocks w); [reflexivity|].
  change (client :: replicate n client ++ usageLocks w)
    with (replicate (S n) client ++ usageLocks w).
  rewrite replicate_S_end, <- app_assoc. reflexivity.
Qed.

Lemma Gets_same_certificate_witness :
  Gets 3 (NewCache mockClientBuilder (fun _ => (cert1, None))) world0
  = (replicate 3 (Returned (Some (SyncClientAt 100)) (Some (SyncClientAt 100)) None),
     store cert1 (Some (SyncClientAt 100))
       (NewCache mockClientBuilder (fun _ => (cert1, None))),
     {| getterCalls := 3; builderCalls := 1; goroutines := [];
        usageLocks := replicate 3 (SyncClientAt 100) |}).
Proof.
  apply (Gets_same_certificate 2 mockClientBuilder (fun _ => (cert1, None))
           cert1 (SyncClientAt 100) world0
           (fun _ => eq_refl) ltac:(discriminate) eq_refl).
Defined.

(** X15: a failed build can be retried: when a rebuild is due and the
    builder fails, and at the next call the getter returns the same
    certificate and the builder succeeds, the two calls return first the
    builder's error and then the new client; the cache then holds the
    certificate and the new client, and the client cached before, if any,
    is retired by the second call. *)
Theorem Get_retry_after_builder_error (c : Cache) (w : World) (cert : bytes)
  (fresh : option SyncClient) (e : error) (client : SyncClient) :
  certGetter c (getterCalls w) = (cert, None) ->
  certGetter c (S (getterCalls w)) = (cert, None) ->
  len cert <> 0 ->
  cachedClient c = None \/ bytes_Equal cert (cachedCert c) = false ->
  clientBuilder c (builderCalls w) = (fresh, Some e) ->
  clientBuilder c (S (builderCalls w)) = (Some client, None) ->
  (Gets 2 c w).1.1 = [Returned None None (Wrap (Some e) None);
                      Returned (Some client) (Some client) None]
  /\ (Gets 2 c w).1.2 = store cert (Some client) c
  /\ builderCalls (Gets 2 c w).2 = 2 + builderCalls w
  /\ retired (Gets 2 c w).2 = retired w ++ option_list (cachedClient c).
Proof.
  intros Hg Hg' Hl Hmiss Hb Hb'. cbn [Gets].
  rewrite (Get_miss c w cert fresh (Some e) Hg Hl Hmiss Hb).
  cbn iota.
  rewrite (Get_miss c (called_builder (called_getter w)) cert (Some client) None
             Hg' Hl Hmiss Hb').
  unfold return_cached, retired; simpl.
  destruct (cachedClient c) as [old|]; simpl; repeat split;
    rewrite ?fmap_app, ?app_nil_r; reflexivity.
Qed.

Lemma Get_retry_after_builder_error_witness :
  (Gets 2 {| cachedCert := cert1; cachedClient := Some (SyncClientAt 7);
             clientBuilder := fun n =>
               if Nat.eqb n 0 then (None, Some (ErrorString "dial failed"))
               else (Some (SyncClientAt 8), None);
             certGetter := fun _ => (cert2, None) |} world0).1.1
  = [Returned None None (Some (TraceErr (ErrorString "dial failed") []));
     Returned (Some (SyncClientAt 8)) (Some (SyncClientAt 8)) None].
Proof.
  apply (proj1 (Get_retry_after_builder_error
                  {| cachedCert := cert1; cachedClient := Some (SyncClientAt 7);
                     clientBuilder := fun n =>
                       if Nat.eqb n 0 then (None, Some (ErrorString "dial failed"))
                       else (Some (SyncClientAt 8), None);
                     certGetter := fun _ => (cert2, None) |}
                  world0 cert2 None (ErrorString "dial failed") (SyncClientAt 8)
                  eq_refl eq_refl ltac:(discriminate) (or_intror eq_refl)
                  eq_refl eq_refl)).
Defined.

End SyncclientFacts.

(** ** The headless watcher *)

Module DaemonFacts.
Import Trace Daemon.

(** *** The pending-request registry of a watch loop *)

Lemma watch_loop_app w sigs1 sigs2 :
  watch_loop w (sigs1 ++ sigs2)
  = match watch_loop w sigs1 with
    | inl w1 => watch_loop w1 sigs2
    | inr e => inr e
    end.
Proof.
  revert w; induction sigs1 as [|sig sigs1 IH]; intros w; simpl; [reflexivity|].
  destruct (watch_select w sig); [apply IH | reflexivity].
Qed.

Lemma cancelPendingRequest_registry name w :
  pendingRequests (cancelPendingRequest name w) = pendingRequests w.
Proof.
  unfold cancelPendingRequest. destruct (pendingRequests w !! name); reflexivity.
Qed.

Lemma cancelPendingRequest_cancels name w cancelSend :
  pendingRequests w !! name = Some cancelSend ->
  cancelSend ∈ cancelled (ctxs (cancelPendingRequest name w)).
Proof.
  unfold cancelPendingRequest. intros ->. simpl. set_solver.
Qed.

(** A resolution event never changes the registry. *)
Lemma resolution_keeps_registry w event w' :
  watch_select w (ResolutionEvents event) = inl w' ->
  pendingRequests w' = pendingRequests w.
Proof.
  unfold watch_select.
  destruct (Type_ event); try (intros [= <-]; reflexivity).
  - destruct (Resource_ event) as [[ha|name]|]; try discriminate.
    destruct (State ha); intros [= <-];
      auto using cancelPendingRequest_registry.
  - destruct (Resource_ event) as [r|]; [|discriminate].
    intros [= <-]. apply cancelPendingRequest_registry.
Qed.

(** No turn of the loop removes an entry of the registry. *)
Lemma watch_select_keeps_entry w sig w' name :
  watch_select w sig = inl w' ->
  is_Some (pendingRequests w !! name) ->
  is_Some (pendingRequests w' !! name).
Proof.
  destruct sig as [event|event|err|err|]; try discriminate.
  - unfold watch_select.
    destruct (Type_ event); try (intros [= <-]; exact id).
    destruct (Resource_ event) as [[ha|n]|]; try discriminate.
    simpl. intros [= <-] Hin; simpl.
    rewrite lookup_insert. case_decide; [eauto | exact Hin].
  - intros H. rewrite (resolution_keeps_registry _ _ _ H). exact id.
Qed.

Lemma watch_loop_keeps_entry sigs w w' name :
  watch_loop w sigs = inl w' ->
  is_Some (pendingRequests w !! name) ->
  is_Some (pendingRequests w' !! name).
Proof.
  revert w; induction sigs as [|sig sigs IH]; intros w; simpl.
  - intros [= <-]; exact id.
  - destruct (watch_select w sig) as [w1|e] eqn:H1; [|discriminate].
    intros H Hin. apply (IH _ H). eapply watch_select_keeps_entry; eauto.
Qed.

Lemma pending_put_registers w ha :
  exists w', watch_select w (pending_put ha) = inl w'
             /\ pendingRequests w' !! Name ha = Some (made (ctxs w)).
Proof.
  eexists; split; [reflexivity|]. simpl. apply lookup_insert_eq.
Qed.

Lemma terminal_resolution_cancels w name res cancelSend :
  terminal_resolution name res ->
  pendingRequests w !! name = Some cancelSend ->
  exists w', watch_select w res = inl w'
             /\ pendingRequests w' = pendingRequests w
             /\ cancelSend ∈ cancelled (ctxs w').
Proof.
  intros Hres Hin.
  destruct Hres as [ha Hn Hs | ha Hn Hs | r Hn]; simpl; try rewrite Hs;
    rewrite Hn; eexists; (split; [reflexivity|]);
    auto using cancelPendingRequest_registry, cancelPendingRequest_cancels.
Qed.

(** C1, as stated, fails: a fresh watch loop receives the pending put of
    [request-1] and then its approval (or its deletion); after the
    resolution event the registry still holds the entry of [request-1]
    (the cancel function of context 0, which has been called). *)
Lemma registry_retains_resolved_request :
  (exists w',
     watch_loop (watch_start no_contexts)
       [pending_put (request1 STATE_PENDING);
        resolution_put (request1 STATE_APPROVED)] = inl w'
     /\ pendingRequests w' !! "request-1" = Some 0
     /\ 0 ∈ cancelled (ctxs w'))
  /\ (exists w',
        watch_loop (watch_start no_contexts)
          [pending_put (request1 STATE_PENDING);
           resolution_delete (ResourceHeader "request-1")] = inl w'
        /\ pendingRequests w' !! "request-1" = Some 0
        /\ 0 ∈ cancelled (ctxs w')).
Proof.
  split; eexists; (split; [reflexivity|]); simpl;
    (split; [reflexivity | set_solver]).
Qed.

(** C1, amended: when a running watch loop has processed a pending put
    for the request [r] and later a terminal resolution event for [r]
    (approved, denied or deleted), the registry still holds an entry for
    [r], and the cancel function held there has been called.  No
    resolution event changes the registry. *)
Theorem resolution_cancels_and_keeps_entry (w w' : watching)
  (before between : list signal) (ha : HeadlessAuthentication) (res : signal) :
  terminal_resolution (Name ha) res ->
  watch_loop w (before ++ pending_put ha :: between ++ [res]) = inl w' ->
  (exists cancelSend,
     pendingRequests w' !! Name ha = Some cancelSend
     /\ cancelSend ∈ cancelled (ctxs w'))
  /\ (forall v event v',
        watch_select v (ResolutionEvents event) = inl v' ->
        pendingRequests v' = pendingRequests v).
Proof.
  intros Hres Hrun. split; [|apply resolution_keeps_registry].
  rewrite watch_loop_app in Hrun.
  destruct (watch_loop w before) as [w1|] eqn:H1; [|discriminate].
  change (pending_put ha :: between ++ [res])
    with ([pending_put ha] ++ between ++ [res]) in Hrun.
  rewrite watch_loop_app in Hrun.
  destruct (pending_put_registers w1 ha) as (w2 & H2 & Hin2).
  cbn [watch_loop] in Hrun. rewrite H2 in Hrun.
  rewrite watch_loop_app in Hrun.
  destruct (watch_loop w2 between) as [w3|] eqn:H3; [|discriminate].
  destruct (watch_loop_keeps_entry _ _ _ (Name ha) H3) as [cancelSend Hin3];
    [rewrite Hin2; eauto|].
  destruct (terminal_resolution_cancels w3 _ _ _ Hres Hin3)
    as (w4 & H4 & Hreg & Hc).
  simpl in Hrun. rewrite H4 in Hrun. injection Hrun as <-.
  exists cancelSend. rewrite Hreg. auto.
Qed.

Lemma resolution_cancels_and_keeps_entry_witness :
  terminal_resolution (Name (request1 STATE_PENDING))
    (resolution_put (request1 STATE_DENIED))
  /\ watch_loop (watch_start no_contexts)
        ([] ++ pending_put (request1 STATE_PENDING)
            :: [] ++ [resolution_put (request1 STATE_DENIED)])
      = inl request1_denied
  /\ exists cancelSend,
       pendingRequests request1_denied !! "request-1" = Some cancelSend
       /\ cancelSend ∈ cancelled (ctxs request1_denied).
Proof.
  split; [apply terminal_denied; reflexivity|].
  split; [vm_compute; reflexivity|].
  apply (proj1 (resolution_cancels_and_keeps_entry
                  (watch_start no_contexts) request1_denied [] []
                  (request1 STATE_PENDING)
                  (resolution_put (request1 STATE_DENIED))
                  (terminal_denied _ (request1 STATE_DENIED) eq_refl eq_refl)
                  eq_refl)).
Defined.

(** *** The registry of watchers *)

Lemma stopHeadlessWatcher_err uri s :
  (stopHeadlessWatcher uri s).1 = None
  \/ exists e, (stopHeadlessWatcher uri s).1 = Some e /\ IsNotFound e = true.
Proof.
  unfold stopHeadlessWatcher.
  destruct (headlessWatcherClosers s !! uri); simpl; eauto.
Qed.

Lemma stopHeadlessWatcher_removes uri s :
  headlessWatcherClosers (stopHeadlessWatcher uri s).2 !! uri = None.
Proof.
  unfold stopHeadlessWatcher.
  destruct (headlessWatcherClosers s !! uri) eqn:H; simpl;
    [apply lookup_delete_eq | exact H].
Qed.

Lemma stopHeadlessWatcher_cancels uri s c :
  headlessWatcherClosers s !! uri = Some c ->
  c ∈ cancelled (contexts_ (stopHeadlessWatcher uri s).2).
Proof.
  unfold stopHeadlessWatcher. intros ->. simpl. set_solver.
Qed.

(** The five parts of the invariant, with their variables introduced. *)
Ltac split_inv :=
  split; [intros u c H; split
         |split; [intros u c H; split; [|intros Hlive']
                 |split; [|split; [intros u u' c H H'|intros c H]]]].

Lemma stopHeadlessWatcher_inv uri s :
  registry_inv s -> registry_inv (stopHeadlessWatcher uri s).2.
Proof.
  intros (I1 & I2 & I3 & I4 & I5). unfold stopHeadlessWatcher.
  destruct (headlessWatcherClosers s !! uri) as [c0|] eqn:Hc; simpl;
    [|exact (conj I1 (conj I2 (conj I3 (conj I4 I5))))].
  destruct (I1 _ _ Hc) as [Hloop Hlive].
  split_inv; simpl in *.
  - apply lookup_delete_Some in H as [_ H]. apply (I1 _ _ H).
  - apply lookup_delete_Some in H as [Hne H].
    destruct (I1 _ _ H) as [Hloop' Hlive''].
    intros [Heq%elem_of_singleton|Hin]%elem_of_union; [|contradiction].
    subst c. apply Hne. eapply I4; eassumption.
  - apply (I2 _ _ H).
  - assert (Hreg : headlessWatcherClosers s !! u = Some c).
    { apply (I2 _ _ H). intros Hin. apply Hlive', elem_of_union. auto. }
    apply lookup_delete_Some. split; [|exact Hreg].
    intros <-. apply Hlive'. rewrite Hc in Hreg. injection Hreg as ->.
    apply elem_of_union. left. apply elem_of_singleton. reflexivity.
  - exact I3.
  - eapply I4; eassumption.
  - apply elem_of_union in H as [->%elem_of_singleton|Hin].
    + apply (I2 _ _ Hloop).
    + apply (I5 _ Hin).
Qed.

(** [stopHeadlessWatcher] fails with NotFound only, which
    [startHeadlessWatcher] lets pass. *)
Lemma startHeadlessWatcher_eq uri waitInit retryErr initialized s :
  startHeadlessWatcher uri waitInit retryErr initialized s
  = match retryErr with
    | Some _ => (Wrap retryErr None, (stopHeadlessWatcher uri s).2)
    | None =>
        (if waitInit && negb initialized
         then Wrap (Some context_Canceled) None else None,
         watching_started uri (stopHeadlessWatcher uri s).2)
    end.
Proof.
  unfold startHeadlessWatcher.
  destruct (stopHeadlessWatcher uri s) as [err s0] eqn:Hs. simpl.
  assert (Hnf : bool_decide (err ≠ None) && negb (from_option IsNotFound false err)
                = false).
  { destruct (stopHeadlessWatcher_err uri s) as [H|(e & H & Hn)];
      rewrite Hs in H; simpl in H; subst err; simpl;
      [reflexivity | rewrite Hn; reflexivity]. }
  rewrite Hnf. destruct retryErr; [reflexivity|].
  simpl. destruct (waitInit && negb initialized); reflexivity.
Qed.

Lemma startHeadlessWatcher_state uri waitInit retryErr initialized s :
  (startHeadlessWatcher uri waitInit retryErr initialized s).2
  = match retryErr with
    | Some _ => (stopHeadlessWatcher uri s).2
    | None => watching_started uri (stopHeadlessWatcher uri s).2
    end.
Proof. rewrite startHeadlessWatcher_eq. destruct retryErr; reflexivity. Qed.

Lemma startHeadlessWatcher_ok uri waitInit retryErr initialized s s' :
  startHeadlessWatcher uri waitInit retryErr initialized s = (None, s') ->
  s' = watching_started uri (stopHeadlessWatcher uri s).2.
Proof.
  rewrite startHeadlessWatcher_eq.
  destruct retryErr as [e|]; [destruct e; discriminate|].
  intros [= _ <-]. reflexivity.
Qed.

Lemma watching_started_inv uri s :
  registry_inv s ->
  headlessWatcherClosers s !! uri = None ->
  registry_inv (watching_started uri s).
Proof.
  intros (I1 & I2 & I3 & I4 & I5) Hfree.
  assert (Hfresh : forall u, (u, made (contexts_ s)) ∉ watchLoops s).
  { intros u Hin. destruct (I2 _ _ Hin) as [Hlt _]. lia. }
  unfold watching_started. split_inv; simpl in *.
  - apply elem_of_app.
    apply lookup_insert_Some in H as [[<- <-]|[Hne H]];
      [right; apply list_elem_of_singleton; reflexivity|].
    left. apply (I1 _ _ H).
  - apply lookup_insert_Some in H as [[<- <-]|[Hne H]].
    + intros Hin. apply I5 in Hin. lia.
    + apply (I1 _ _ H).
  - apply elem_of_app in H as [H|[= -> ->]%list_elem_of_singleton]; [|lia].
    destruct (I2 _ _ H). lia.
  - apply elem_of_app in H as [H|[= -> ->]%list_elem_of_singleton];
      [|apply lookup_insert_eq].
    destruct (I2 _ _ H) as [_ Hreg]. specialize (Hreg Hlive').
    rewrite lookup_insert_ne; [exact Hreg | congruence].
  - apply NoDup_app. repeat split; [exact I3 | | apply NoDup_singleton].
    intros [u c] Hin [= -> ->]%list_elem_of_singleton. exact (Hfresh _ Hin).
  - apply elem_of_app in H as [H|Heq%list_elem_of_singleton];
      apply elem_of_app in H' as [H'|Heq'%list_elem_of_singleton].
    + eapply I4; eassumption.
    + injection Heq' as -> ->. destruct (Hfresh _ H).
    + injection Heq as -> ->. destruct (Hfresh _ H').
    + congruence.
  - apply I5 in H. lia.
Qed.

Lemma startHeadlessWatcher_inv uri waitInit retryErr initialized s :
  registry_inv s ->
  registry_inv (startHeadlessWatcher uri waitInit retryErr initialized s).2.
Proof.
  intros I. rewrite startHeadlessWatcher_state.
  destruct retryErr; [apply stopHeadlessWatcher_inv; exact I|].
  apply watching_started_inv;
    [apply stopHeadlessWatcher_inv; exact I | apply stopHeadlessWatcher_removes].
Qed.

Lemma watchLoopExit_inv uri watchCtx s :
  registry_inv s ->
  (uri, watchCtx) ∈ watchLoops s ->
  registry_inv (watchLoopExit uri watchCtx s).
Proof.
  intros (I1 & I2 & I3 & I4 & I5) Hin. unfold watchLoopExit; simpl.
  assert (Hsub : forall l, l ∈ filter (λ l, l ≠ (uri, watchCtx)) (watchLoops s)
                           -> l ∈ watchLoops s)
    by (intros l [_ H]%list_elem_of_filter; exact H).
  case_bool_decide as Hdone.
  - split_inv; simpl in *.
    + apply list_elem_of_filter. destruct (I1 _ _ H) as [Hl Hlive].
      split; [|exact Hl]. intros [= -> ->]. contradiction.
    + apply (I1 _ _ H).
    + apply (I2 _ _ (Hsub _ H)).
    + apply (I2 _ _ (Hsub _ H)). exact Hlive'.
    + apply NoDup_filter; exact I3.
    + eapply I4; eauto.
    + apply (I5 _ H).
  - destruct (I2 _ _ Hin) as [Hlt Hreg]. specialize (Hreg Hdone).
    unfold stopHeadlessWatcher; simpl. rewrite Hreg; simpl.
    split_inv; simpl in *.
    + apply lookup_delete_Some in H as [Hne H].
      apply list_elem_of_filter. split; [congruence | apply (I1 _ _ H)].
    + apply lookup_delete_Some in H as [Hne H].
      destruct (I1 _ _ H) as [Hl Hlive].
      intros [->%elem_of_singleton|Hc]%elem_of_union; [|contradiction].
      apply Hne. eapply I4; eassumption.
    + apply (I2 _ _ (Hsub _ H)).
    + apply list_elem_of_filter in H as [Hne H].
      assert (Hc : headlessWatcherClosers s !! u = Some c).
      { apply (I2 _ _ H). intros Hc. apply Hlive', elem_of_union. auto. }
      apply lookup_delete_Some. split; [|exact Hc].
      intros <-. apply Hne. f_equal. congruence.
    + apply NoDup_filter; exact I3.
    + eapply I4; eauto.
    + apply elem_of_union in H as [->%elem_of_singleton|Hc]; [exact Hlt | auto].
Qed.

Lemma Service_new_inv : registry_inv Service_new.
Proof.
  split_inv; simpl in *;
    try (rewrite lookup_empty in H; discriminate H);
    try (apply elem_of_nil in H; destruct H);
    try (apply elem_of_empty in H; destruct H).
  apply NoDup_nil_2.
Qed.

(** Every state the service can reach satisfies the invariant. *)
Lemma reachable_inv s : reachable s -> registry_inv s.
Proof.
  induction 1 as [|op s _ IH Hen]; [apply Service_new_inv|].
  destruct op as [uri waitInit retryErr initialized|uri|uri watchCtx]; simpl.
  - apply startHeadlessWatcher_inv; exact IH.
  - apply stopHeadlessWatcher_inv; exact IH.
  - apply watchLoopExit_inv; [exact IH | exact Hen].
Qed.

Lemma NoDup_all_equal {A} (l : list A) (a : A) :
  NoDup l -> (forall x, x ∈ l -> x = a) -> l = [] \/ l = [a].
Proof.
  intros Hnd Hall. destruct l as [|x [|y l]]; [left; reflexivity | |].
  - right. f_equal. apply Hall. set_solver.
  - exfalso. apply NoDup_cons in Hnd as [Hx _]. apply Hx.
    rewrite (Hall x), (Hall y); set_solver.
Qed.

(** Under the invariant a cluster has no live watch loop when nothing is
    registered for it, and exactly the registered one otherwise. *)
Lemma active_watches_registered uri s :
  registry_inv s ->
  active_watches uri s
  = match headlessWatcherClosers s !! uri with
    | Some c => [(uri, c)]
    | None => []
    end.
Proof.
  intros (I1 & I2 & I3 & I4 & I5). unfold active_watches.
  set (P := λ l : string * nat, l.1 = uri ∧ l.2 ∉ cancelled (contexts_ s)).
  assert (Hnd : NoDup (filter P (watchLoops s))) by (apply NoDup_filter; exact I3).
  destruct (headlessWatcherClosers s !! uri) as [c|] eqn:Hc.
  - destruct (NoDup_all_equal _ (uri, c) Hnd) as [Hnil|Hone]; [| |exact Hone].
    + intros [u c'] [[Hu Hlive] Hin]%list_elem_of_filter. simpl in *. subst u.
      f_equal. destruct (I2 _ _ Hin) as [_ Hreg]. specialize (Hreg Hlive).
      congruence.
    + exfalso. destruct (I1 _ _ Hc) as [Hin Hlive].
      eapply filter_nil_not_elem_of; [exact Hnil | | exact Hin].
      split; [reflexivity | exact Hlive].
  - destruct (filter P (watchLoops s)) as [|[u c'] l] eqn:Hf; [reflexivity|].
    exfalso.
    assert (Hin : (u, c') ∈ filter P (watchLoops s)) by (rewrite Hf; left).
    apply list_elem_of_filter in Hin as [[Hu Hlive] Hin]. simpl in *. subst u.
    destruct (I2 _ _ Hin) as [_ Hreg]. specialize (Hreg Hlive). congruence.
Qed.

(** C9: in every state the service can reach each cluster has at most one
    live watch loop.  A successful [startHeadlessWatcher] leaves exactly
    one, the one it registers; a second successful start for the same
    cluster cancels the context of the first watch, removes its entry and
    registers a new context, so that again exactly one watch is live, the
    new one. *)
Theorem start_twice_one_active_watch (s s1 s2 : Service) (uri : string)
  (waitInit1 waitInit2 initialized1 initialized2 : bool)
  (retryErr1 retryErr2 : option error) :
  reachable s ->
  startHeadlessWatcher uri waitInit1 retryErr1 initialized1 s = (None, s1) ->
  startHeadlessWatcher uri waitInit2 retryErr2 initialized2 s1 = (None, s2) ->
  (forall u, length (active_watches u s) <= 1
             /\ length (active_watches u s1) <= 1
             /\ length (active_watches u s2) <= 1)
  /\ exists watchCtx1 watchCtx2,
       watchCtx1 <> watchCtx2
       /\ headlessWatcherClosers s1 !! uri = Some watchCtx1
       /\ active_watches uri s1 = [(uri, watchCtx1)]
       /\ watchCtx1 ∈ cancelled (contexts_ s2)
       /\ headlessWatcherClosers s2 !! uri = Some watchCtx2
       /\ active_watches uri s2 = [(uri, watchCtx2)].
Proof.
  intros Hr H1 H2.
  pose proof (reachable_inv _ Hr) as I.
  assert (I1 : registry_inv s1).
  { replace s1 with (startHeadlessWatcher uri waitInit1 retryErr1 initialized1 s).2
      by (rewrite H1; reflexivity).
    apply startHeadlessWatcher_inv; exact I. }
  assert (I2 : registry_inv s2).
  { replace s2 with (startHeadlessWatcher uri waitInit2 retryErr2 initialized2 s1).2
      by (rewrite H2; reflexivity).
    apply startHeadlessWatcher_inv; exact I1. }
  split.
  - intros u. rewrite !active_watches_registered by assumption.
    repeat split;
      match goal with |- context [?m !! u] => destruct (m !! u) end;
      simpl; lia.
  - apply startHeadlessWatcher_ok in H1, H2.
    assert (R1 : headlessWatcherClosers s1 !! uri
                 = Some (made (contexts_ (stopHeadlessWatcher uri s).2)))
      by (rewrite H1; apply lookup_insert_eq).
    assert (R2 : headlessWatcherClosers s2 !! uri
                 = Some (made (contexts_ (stopHeadlessWatcher uri s1).2)))
      by (rewrite H2; apply lookup_insert_eq).
    pose proof (stopHeadlessWatcher_cancels uri s1 _ R1) as Hc.
    exists (made (contexts_ (stopHeadlessWatcher uri s).2)),
           (made (contexts_ (stopHeadlessWatcher uri s1).2)).
    split; [|split; [exact R1|split; [|split; [|split; [exact R2|]]]]].
    + intros Heq. destruct I2 as (J1 & _). destruct (J1 _ _ R2) as [_ Hlive].
      apply Hlive. rewrite <- Heq, H2. simpl. exact Hc.
    + rewrite active_watches_registered, R1 by exact I1. reflexivity.
    + rewrite H2. simpl. exact Hc.
    + rewrite active_watches_registered, R2 by exact I2. reflexivity.
Qed.

Lemma start_twice_one_active_watch_witness :
  reachable Service_new
  /\ exists watchCtx1 watchCtx2,
       watchCtx1 <> watchCtx2
       /\ headlessWatcherClosers
            (startHeadlessWatcher "/clusters/root" false None false Service_new).2
          !! "/clusters/root" = Some watchCtx1
       /\ active_watches "/clusters/root"
            (startHeadlessWatcher "/clusters/root" false None false Service_new).2
          = [("/clusters/root", watchCtx1)]
       /\ watchCtx1 ∈ cancelled (contexts_
            (startHeadlessWatcher "/clusters/root" true None true
               (startHeadlessWatcher "/clusters/root" false None false
                  Service_new).2).2)
       /\ headlessWatcherClosers
            (startHeadlessWatcher "/clusters/root" true None true
               (startHeadlessWatcher "/clusters/root" false None false
                  Service_new).2).2
          !! "/clusters/root" = Some watchCtx2
       /\ active_watches "/clusters/root"
            (startHeadlessWatcher "/clusters/root" true None true
               (startHeadlessWatcher "/clusters/root" false None false
                  Service_new).2).2
          = [("/clusters/root", watchCtx2)].
Proof.
  split; [apply reachable_new|].
  apply (proj2 (start_twice_one_active_watch
                  Service_new _ _ "/clusters/root" false true false true
                  None None reachable_new eq_refl eq_refl)).
Defined.

(** *** Stopping, starting and leaving, one cluster among others *)

Lemma Wrap_is_None (err : option error) : Wrap err None = None <-> err = None.
Proof. destruct err as [[]|]; simpl; split; intros H; try discriminate H; reflexivity. Qed.

(** X16: [stopHeadlessWatcher] returns no error exactly when a watcher is
    registered for the cluster; with none registered it returns a
    NotFound error and leaves the service as it is.  A second stop of the
    same cluster therefore always returns NotFound and changes nothing. *)
Theorem stopHeadlessWatcher_twice (uri : string) (s : Service) :
  ((stopHeadlessWatcher uri s).1 = None
   <-> is_Some (headlessWatcherClosers s !! uri))
  /\ (headlessWatcherClosers s !! uri = None ->
      (stopHeadlessWatcher uri s).2 = s)
  /\ (exists e,
        stopHeadlessWatcher uri (stopHeadlessWatcher uri s).2
        = (Some e, (stopHeadlessWatcher uri s).2)
        /\ IsNotFound e = true).
Proof.
  split; [|split].
  - unfold stopHeadlessWatcher.
    destruct (headlessWatcherClosers s !! uri); simpl; split; intros H;
      eauto; try discriminate H. destruct H as [? H]; discriminate H.
  - unfold stopHeadlessWatcher. intros ->. reflexivity.
  - pose proof (stopHeadlessWatcher_removes uri s) as H.
    unfold stopHeadlessWatcher at 1. rewrite H. eexists; split; reflexivity.
Qed.

Lemma perform_reachable op s : reachable s -> enabled op s -> reachable (perform op s).
Proof. intros; apply reachable_perform; assumption. Qed.

Lemma perform_registry_other op s u :
  registry_inv s -> enabled op s -> operation_uri op <> u ->
  headlessWatcherClosers (perform op s) !! u = headlessWatcherClosers s !! u.
Proof.
  intros I Hen Hne.
  assert (Hstop : headlessWatcherClosers (stopHeadlessWatcher (operation_uri op) s).2 !! u
                  = headlessWatcherClosers s !! u).
  { unfold stopHeadlessWatcher.
    destruct (headlessWatcherClosers s !! operation_uri op); simpl;
      [apply lookup_delete_ne; exact Hne | reflexivity]. }
  destruct op as [uri waitInit retryErr initialized|uri|uri watchCtx]; simpl in *.
  - rewrite startHeadlessWatcher_state. destruct retryErr; [exact Hstop|].
    simpl. rewrite lookup_insert_ne by exact Hne. exact Hstop.
  - exact Hstop.
  - unfold watchLoopExit. simpl. case_bool_decide; [reflexivity|].
    unfold stopHeadlessWatcher in *. simpl.
    destruct (headlessWatcherClosers s !! uri); simpl in *; exact Hstop.
Qed.

(** X17: an operation on one cluster (a start, a stop, the exit of a watch
    loop) leaves every other cluster as it was: the entry registered for
    it and its live watch loops are unchanged. *)
Theorem other_clusters_untouched (op : operation) (s : Service) (u : string) :
  reachable s ->
  enabled op s ->
  operation_uri op <> u ->
  headlessWatcherClosers (perform op s) !! u = headlessWatcherClosers s !! u
  /\ active_watches u (perform op s) = active_watches u s.
Proof.
  intros Hr Hen Hne.
  pose proof (reachable_inv _ Hr) as I.
  pose proof (reachable_inv _ (perform_reachable _ _ Hr Hen)) as I'.
  pose proof (perform_registry_other op s u I Hen Hne) as Hreg.
  split; [exact Hreg|].
  rewrite !active_watches_registered by assumption. rewrite Hreg. reflexivity.
Qed.

Lemma other_clusters_untouched_witness :
  reachable (startHeadlessWatcher "/clusters/a" false None false Service_new).2
  /\ active_watches "/clusters/a"
       (perform (Start "/clusters/b" false None false)
          (startHeadlessWatcher "/clusters/a" false None false Service_new).2)
     = active_watches "/clusters/a"
         (startHeadlessWatcher "/clusters/a" false None false Service_new).2.
Proof.
  assert (H : reachable
                (startHeadlessWatcher "/clusters/a" false None false Service_new).2)
    by (apply (reachable_perform (Start "/clusters/a" false None false)
                 Service_new reachable_new I)).
  split; [exact H|].
  apply (proj2 (other_clusters_untouched
                  (Start "/clusters/b" false None false) _ "/clusters/a"
                  H I ltac:(discriminate))).
Defined.

(** X18: [startHeadlessWatcher] returns no error exactly when the retry
    could be built and, if it was asked to wait, the watcher got
    initialized before its context was done; that no watcher was
    registered before never makes it fail.  When the retry cannot be
    built the watcher registered before has been stopped all the same:
    the cluster is left without entry and without live watch loop. *)
Theorem startHeadlessWatcher_failure (uri : string) (waitInit initialized : bool)
  (retryErr : option error) (s : Service) :
  reachable s ->
  ((startHeadlessWatcher uri waitInit retryErr initialized s).1 = None
   <-> retryErr = None /\ (waitInit = false \/ initialized = true))
  /\ (is_Some retryErr ->
      (startHeadlessWatcher uri waitInit retryErr initialized s).1
      = Wrap retryErr None
      /\ headlessWatcherClosers
           (startHeadlessWatcher uri waitInit retryErr initialized s).2 !! uri
         = None
      /\ active_watches uri
           (startHeadlessWatcher uri waitInit retryErr initialized s).2 = []).
Proof.
  intros Hr. pose proof (reachable_inv _ Hr) as I.
  pose proof (startHeadlessWatcher_inv uri waitInit retryErr initialized s I) as I'.
  revert I'. rewrite startHeadlessWatcher_eq. split.
  - destruct retryErr as [e|]; simpl.
    + split; [destruct e; discriminate | intros [H _]; discriminate H].
    + destruct waitInit, initialized; simpl; split; intros H;
        try discriminate H; auto; destruct H as [_ [H|H]]; discriminate H.
  - intros [e ->]. simpl in *. split; [reflexivity|].
    pose proof (stopHeadlessWatcher_removes uri s) as Hrm.
    split; [exact Hrm|].
    rewrite active_watches_registered by exact I'. rewrite Hrm. reflexivity.
Qed.

Lemma startHeadlessWatcher_failure_witness :
  reachable (startHeadlessWatcher "/clusters/a" false None false Service_new).2
  /\ active_watches "/clusters/a"
       (startHeadlessWatcher "/clusters/a" false None false Service_new).2
     = [("/clusters/a", 0)]
  /\ active_watches "/clusters/a"
       (startHeadlessWatcher "/clusters/a" false
          (BadParameter "missing parameter Step") false
          (startHeadlessWatcher "/clusters/a" false None false Service_new).2).2
     = [].
Proof.
  assert (H : reachable
                (startHeadlessWatcher "/clusters/a" false None false Service_new).2)
    by (apply (reachable_perform (Start "/clusters/a" false None false)
                 Service_new reachable_new I)).
  split; [exact H|]. split; [reflexivity|].
  apply (proj2 (startHeadlessWatcher_failure "/clusters/a" false false
                  (BadParameter "missing parameter Step") _ H)).
  eexists; reflexivity.
Defined.

(** X19: a watcher started through [StartHeadlessWatcher] is stopped by
    [StopHeadlessWatcher] for the URI of the cluster that was resolved:
    the stop returns no error, the context of the watch is cancelled, and
    the cluster is left without entry and without live watch loop. *)
Theorem start_then_stop (cluster : Cluster) (waitInit initialized : bool)
  (retryErr : option error) (s s1 : Service) :
  reachable s ->
  StartHeadlessWatcher (cluster, None) waitInit retryErr initialized s = (None, s1) ->
  exists watchCtx,
    active_watches (URI cluster) s1 = [(URI cluster, watchCtx)]
    /\ (StopHeadlessWatcher (URI cluster) s1).1 = None
    /\ watchCtx ∈ cancelled (contexts_ (StopHeadlessWatcher (URI cluster) s1).2)
    /\ headlessWatcherClosers (StopHeadlessWatcher (URI cluster) s1).2
       !! URI cluster = None
    /\ active_watches (URI cluster) (StopHeadlessWatcher (URI cluster) s1).2 = [].
Proof.
  intros Hr Hstart. pose proof (reachable_inv _ Hr) as I.
  unfold StartHeadlessWatcher in Hstart. simpl in Hstart.
  destruct (startHeadlessWatcher (URI cluster) waitInit retryErr initialized s)
    as [err s1'] eqn:Hs.
  injection Hstart as Herr <-.
  apply (proj1 (Wrap_is_None err)) in Herr. subst err.
  assert (I1 : registry_inv s1').
  { replace s1' with
      (startHeadlessWatcher (URI cluster) waitInit retryErr initialized s).2
      by (rewrite Hs; reflexivity).
    apply startHeadlessWatcher_inv; exact I. }
  apply startHeadlessWatcher_ok in Hs.
  set (watchCtx := made (contexts_ (stopHeadlessWatcher (URI cluster) s).2)) in *.
  assert (R1 : headlessWatcherClosers s1' !! URI cluster = Some watchCtx)
    by (rewrite Hs; apply lookup_insert_eq).
  exists watchCtx.
  assert (Hstop : StopHeadlessWatcher (URI cluster) s1'
                  = (None, (stopHeadlessWatcher (URI cluster) s1').2)).
  { unfold StopHeadlessWatcher, stopHeadlessWatcher. rewrite R1. reflexivity. }
  rewrite Hstop. simpl.
  split; [rewrite active_watches_registered, R1 by exact I1; reflexivity|].
  split; [reflexivity|].
  split; [apply stopHeadlessWatcher_cancels; exact R1|].
  pose proof (stopHeadlessWatcher_removes (URI cluster) s1') as Hrm.
  split; [exact Hrm|].
  rewrite active_watches_registered, Hrm
    by (apply stopHeadlessWatcher_inv; exact I1).
  reflexivity.
Qed.

Lemma start_then_stop_witness :
  StartHeadlessWatcher ({| URI := "/clusters/a"; Connected := true |}, None)
    true None true Service_new
  = (None, watching_started "/clusters/a" Service_new)
  /\ exists watchCtx,
       active_watches "/clusters/a" (watching_started "/clusters/a" Service_new)
       = [("/clusters/a", watchCtx)]
       /\ (StopHeadlessWatcher "/clusters/a"
             (watching_started "/clusters/a" Service_new)).1 = None
       /\ watchCtx ∈ cancelled (contexts_
            (StopHeadlessWatcher "/clusters/a"
               (watching_started "/clusters/a" Service_new)).2)
       /\ headlessWatcherClosers
            (StopHeadlessWatcher "/clusters/a"
               (watching_started "/clusters/a" Service_new)).2
          !! "/clusters/a" = None
       /\ active_watches "/clusters/a"
            (StopHeadlessWatcher "/clusters/a"
               (watching_started "/clusters/a" Service_new)).2 = [].
Proof.
  split; [reflexivity|].
  apply (start_then_stop {| URI := "/clusters/a"; Connected := true |}
           true true None Service_new _ reachable_new eq_refl).
Defined.

(** X20: when a watch loop exits, its deferred function removes the
    entry of its own context and no other: an entry is registered
    afterwards exactly when it was registered before and is not the one
    of the exiting loop.  A loop whose context was already cancelled
    (stopped, or replaced by a later start) leaves the registry as it is. *)
Theorem watchLoopExit_own_registration (uri : string) (watchCtx : nat)
  (s : Service) :
  reachable s ->
  (uri, watchCtx) ∈ watchLoops s ->
  (forall u c,
     headlessWatcherClosers (watchLoopExit uri watchCtx s) !! u = Some c
     <-> headlessWatcherClosers s !! u = Some c /\ c <> watchCtx)
  /\ (watchCtx ∈ cancelled (contexts_ s) ->
      headlessWatcherClosers (watchLoopExit uri watchCtx s)
      = headlessWatcherClosers s).
Proof.
  intros Hr Hin. destruct (reachable_inv _ Hr) as (I1 & I2 & I3 & I4 & I5).
  unfold watchLoopExit; simpl. case_bool_decide as Hdone.
  - simpl. split; [|reflexivity].
    intros u c. split; [|intros [H _]; exact H].
    intros H. split; [exact H|]. intros ->.
    destruct (I1 _ _ H) as [_ Hlive]. contradiction.
  - split; [|contradiction].
    destruct (I2 _ _ Hin) as [_ Hreg]. specialize (Hreg Hdone).
    unfold stopHeadlessWatcher; simpl. rewrite Hreg; simpl.
    intros u c. rewrite lookup_delete_Some. split.
    + intros [Hne H]. split; [exact H|]. intros ->.
      apply Hne. destruct (I1 _ _ H) as [Hl _]. eapply I4; eassumption.
    + intros [H Hne]. split; [|exact H]. intros <-. congruence.
Qed.

Lemma watchLoopExit_own_registration_witness :
  reachable
    (startHeadlessWatcher "/clusters/a" false None false
       (startHeadlessWatcher "/clusters/a" false None false Service_new).2).2
  /\ headlessWatcherClosers
       (watchLoopExit "/clusters/a" 0
          (startHeadlessWatcher "/clusters/a" false None false
             (startHeadlessWatcher "/clusters/a" false None false
                Service_new).2).2)
     = headlessWatcherClosers
         (startHeadlessWatcher "/clusters/a" false None false
            (startHeadlessWatcher "/clusters/a" false None false
               Service_new).2).2.
Proof.
  assert (H : reachable
                (startHeadlessWatcher "/clusters/a" false None false
                   (startHeadlessWatcher "/clusters/a" false None false
                      Service_new).2).2).
  { apply (reachable_perform (Start "/clusters/a" false None false)); [|exact I].
    apply (reachable_perform (Start "/clusters/a" false None false)
             Service_new reachable_new I). }
  split; [exact H|].
  apply (proj2 (watchLoopExit_own_registration "/clusters/a" 0 _ H
                  ltac:(vm_compute; left))).
  vm_compute. reflexivity.
Defined.

(** *** All clusters at once *)

Lemma stopHeadlessWatcher_cancelled_mono uri s c :
  c ∈ cancelled (contexts_ s) ->
  c ∈ cancelled (contexts_ (stopHeadlessWatcher uri s).2).
Proof.
  unfold stopHeadlessWatcher.
  destruct (headlessWatcherClosers s !! uri); simpl; [|exact id].
  intros H. apply elem_of_union. right. exact H.
Qed.

Lemma stopHeadlessWatcher_lookup uri s u :
  headlessWatcherClosers (stopHeadlessWatcher uri s).2 !! u
  = if decide (uri = u) then None else headlessWatcherClosers s !! u.
Proof.
  case_decide as Hu.
  - subst u. apply stopHeadlessWatcher_removes.
  - unfold stopHeadlessWatcher.
    destruct (headlessWatcherClosers s !! uri); simpl;
      [apply lookup_delete_ne; exact Hu | reflexivity].
Qed.

Lemma StopHeadlessWatchers_reachable order s :
  reachable s -> reachable (StopHeadlessWatchers order s).
Proof.
  revert s. induction order as [|uri order IH]; intros s Hr; simpl; [exact Hr|].
  apply IH. exact (reachable_perform (Stop uri) s Hr I).
Qed.

Lemma StopHeadlessWatchers_cancelled_mono order s c :
  c ∈ cancelled (contexts_ s) ->
  c ∈ cancelled (contexts_ (StopHeadlessWatchers order s)).
Proof.
  revert s. induction order as [|uri order IH]; intros s H; simpl; [exact H|].
  apply IH, stopHeadlessWatcher_cancelled_mono, H.
Qed.

Lemma StopHeadlessWatchers_lookup order s u :
  headlessWatcherClosers (StopHeadlessWatchers order s) !! u
  = if decide (u ∈ order) then None else headlessWatcherClosers s !! u.
Proof.
  revert s. induction order as [|uri order IH]; intros s.
  - change (StopHeadlessWatchers [] s) with s.
    case_decide as H; [apply elem_of_nil in H; destruct H | reflexivity].
  - change (StopHeadlessWatchers (uri :: order) s)
      with (StopHeadlessWatchers order (stopHeadlessWatcher uri s).2).
    rewrite IH, stopHeadlessWatcher_lookup.
    repeat case_decide; try reflexivity; exfalso;
      rewrite ?elem_of_cons in *; intuition congruence.
Qed.

Lemma StopHeadlessWatchers_cancels order s u c :
  u ∈ order ->
  headlessWatcherClosers s !! u = Some c ->
  c ∈ cancelled (contexts_ (StopHeadlessWatchers order s)).
Proof.
  revert s. induction order as [|uri order IH]; intros s Hin Hreg; simpl.
  - apply elem_of_nil in Hin. destruct Hin.
  - destruct (decide (uri = u)) as [->|Hne].
    + apply StopHeadlessWatchers_cancelled_mono, stopHeadlessWatcher_cancels, Hreg.
    + apply elem_of_cons in Hin as [->|Hin]; [congruence|].
      apply IH; [exact Hin|].
      rewrite stopHeadlessWatcher_lookup. case_decide; [congruence | exact Hreg].
Qed.

(** X21: [StopHeadlessWatchers], in whatever order [range] visits the
    registry, leaves the registry empty and no cluster with a live watch
    loop: the context of every watcher that was registered is cancelled. *)
Theorem StopHeadlessWatchers_stops_all (order : list string) (s : Service) :
  reachable s ->
  order ≡ₚ registered s ->
  headlessWatcherClosers (StopHeadlessWatchers order s) = ∅
  /\ (forall u, active_watches u (StopHeadlessWatchers order s) = [])
  /\ (forall u c,
        headlessWatcherClosers s !! u = Some c ->
        c ∈ cancelled (contexts_ (StopHeadlessWatchers order s))).
Proof.
  intros Hr Hp.
  assert (Hkeys : forall u c, headlessWatcherClosers s !! u = Some c -> u ∈ order).
  { intros u c H. rewrite Hp. unfold registered.
    apply list_elem_of_fmap. exists (u, c). split; [reflexivity|].
    apply elem_of_map_to_list. exact H. }
  assert (Hnone : forall u,
             headlessWatcherClosers (StopHeadlessWatchers order s) !! u = None).
  { intros u. rewrite StopHeadlessWatchers_lookup. case_decide as Hu; [reflexivity|].
    destruct (headlessWatcherClosers s !! u) as [c|] eqn:H; [|reflexivity].
    destruct (Hu (Hkeys _ _ H)). }
  split; [|split].
  - apply map_eq. intros u. rewrite Hnone, lookup_empty. reflexivity.
  - intros u.
    rewrite active_watches_registered, Hnone
      by (apply reachable_inv, StopHeadlessWatchers_reachable, Hr).
    reflexivity.
  - intros u c H. eapply StopHeadlessWatchers_cancels; [eapply Hkeys|]; exact H.
Qed.

Lemma StopHeadlessWatchers_stops_all_witness :
  reachable
    (startHeadlessWatcher "/clusters/b" false None false
       (startHeadlessWatcher "/clusters/a" false None false Service_new).2).2
  /\ headlessWatcherClosers
       (StopHeadlessWatchers ["/clusters/b"; "/clusters/a"]
          (startHeadlessWatcher "/clusters/b" false None false
             (startHeadlessWatcher "/clusters/a" false None false
                Service_new).2).2)
     = ∅.
Proof.
  assert (H : reachable
                (startHeadlessWatcher "/clusters/b" false None false
                   (startHeadlessWatcher "/clusters/a" false None false
                      Service_new).2).2).
  { apply (reachable_perform (Start "/clusters/b" false None false)); [|exact I].
    apply (reachable_perform (Start "/clusters/a" false None false)
             Service_new reachable_new I). }
  split; [exact H|].
  apply (proj1 (StopHeadlessWatchers_stops_all ["/clusters/b"; "/clusters/a"] _ H
                  ltac:(vm_compute; first [reflexivity | apply perm_swap]))).
Defined.

Lemma startHeadlessWatcher_registers uri waitInit initialized s u :
  is_Some (headlessWatcherClosers
             (startHeadlessWatcher uri waitInit None initialized s).2 !! u)
  <-> u = uri \/ is_Some (headlessWatcherClosers s !! u).
Proof.
  rewrite startHeadlessWatcher_state. simpl.
  destruct (decide (uri = u)) as [->|Hne].
  - rewrite lookup_insert_eq. split; eauto.
  - rewrite lookup_insert_ne, stopHeadlessWatcher_lookup by exact Hne.
    case_decide; [contradiction|]. split; [auto|].
    intros [->|Hu]; [contradiction | exact Hu].
Qed.

Lemma start_connected_spec clusters s :
  reachable s ->
  (start_connected clusters None s).1 = None
  /\ reachable (start_connected clusters None s).2
  /\ (forall u,
        is_Some (headlessWatcherClosers s !! u) ->
        is_Some (headlessWatcherClosers (start_connected clusters None s).2 !! u))
  /\ (forall u,
        (exists c, c ∈ clusters /\ Connected c = true /\ URI c = u) ->
        is_Some (headlessWatcherClosers (start_connected clusters None s).2 !! u))
  /\ (forall u,
        (forall c, c ∈ clusters -> Connected c = true -> URI c <> u) ->
        headlessWatcherClosers (start_connected clusters None s).2 !! u
        = headlessWatcherClosers s !! u).
Proof.
  revert s. induction clusters as [|c clusters IH]; intros s Hr; simpl.
  - split; [reflexivity|]. split; [exact Hr|]. split; [auto|]. split.
    + intros u (c & Hin & _). apply elem_of_nil in Hin. destruct Hin.
    + intros u _. reflexivity.
  - destruct (Connected c) eqn:Hc.
    + pose proof (startHeadlessWatcher_eq (URI c) false None false s) as Heq.
      simpl in Heq. rewrite Heq.
      pose proof (startHeadlessWatcher_registers (URI c) false false s) as Hregs.
      rewrite Heq in Hregs. simpl in Hregs.
      assert (Hr1 : reachable (watching_started (URI c) (stopHeadlessWatcher (URI c) s).2)).
      { pose proof (reachable_perform (Start (URI c) false None false) s Hr I) as H.
        simpl in H. rewrite Heq in H. exact H. }
      destruct (IH _ Hr1) as (IH1 & IH2 & IH3 & IH4 & IH5).
      split; [exact IH1|]. split; [exact IH2|]. split; [|split].
      * intros u Hu. apply IH3, Hregs. right. exact Hu.
      * intros u (c' & [->|Hin]%elem_of_cons & Hc' & Hu).
        -- apply IH3, Hregs. left. symmetry. exact Hu.
        -- apply IH4. eauto.
      * intros u Hu. rewrite IH5.
        -- simpl. rewrite lookup_insert_ne, stopHeadlessWatcher_lookup.
           ++ case_decide as Heq'; [|reflexivity].
              destruct (Hu c (list_elem_of_here _ _) Hc Heq').
           ++ apply (Hu c (list_elem_of_here _ _) Hc).
        -- intros c0 Hin0. apply Hu. apply list_elem_of_further. exact Hin0.
    + destruct (IH _ Hr) as (IH1 & IH2 & IH3 & IH4 & IH5).
      split; [exact IH1|]. split; [exact IH2|]. split; [exact IH3|]. split.
      * intros u (c' & [->|Hin]%elem_of_cons & Hc' & Hu); [congruence|].
        apply IH4. eauto.
      * intros u Hu. apply IH5.
        intros c0 Hin0. apply Hu. apply list_elem_of_further. exact Hin0.
Qed.

(** X22: when the clusters can be read and the retry can be built,
    [StartHeadlessWatchers] returns no error; afterwards every cluster
    read that is connected has exactly one live watch loop (also when it
    is listed twice or had a watcher before), and a cluster that is not
    among the connected ones read is as it was. *)
Theorem StartHeadlessWatchers_connected (clusters : list Cluster) (s : Service) :
  reachable s ->
  (StartHeadlessWatchers (clusters, None) None s).1 = None
  /\ (forall c, c ∈ clusters -> Connected c = true ->
        exists watchCtx,
          active_watches (URI c) (StartHeadlessWatchers (clusters, None) None s).2
          = [(URI c, watchCtx)])
  /\ (forall u,
        (forall c, c ∈ clusters -> Connected c = true -> URI c <> u) ->
        headlessWatcherClosers (StartHeadlessWatchers (clusters, None) None s).2 !! u
        = headlessWatcherClosers s !! u
        /\ active_watches u (StartHeadlessWatchers (clusters, None) None s).2
           = active_watches u s).
Proof.
  intros Hr. unfold StartHeadlessWatchers. simpl.
  destruct (start_connected_spec clusters s Hr) as (H1 & H2 & _ & H3 & H4).
  pose proof (reachable_inv _ Hr) as I.
  pose proof (reachable_inv _ H2) as I'.
  split; [exact H1|]. split.
  - intros c Hin Hc.
    destruct (H3 (URI c)) as [watchCtx Hreg]; [eauto|].
    exists watchCtx. rewrite active_watches_registered, Hreg by exact I'.
    reflexivity.
  - intros u Hu. split; [apply H4; exact Hu|].
    rewrite !active_watches_registered by assumption.
    rewrite (H4 u Hu). reflexivity.
Qed.

Lemma StartHeadlessWatchers_connected_witness :
  reachable Service_new
  /\ (StartHeadlessWatchers
        ([{| URI := "/clusters/a"; Connected := true |};
          {| URI := "/clusters/b"; Connected := false |};
          {| URI := "/clusters/a"; Connected := true |}], None)
        None Service_new).1 = None.
Proof.
  split; [exact reachable_new|].
  apply (proj1 (StartHeadlessWatchers_connected
                  [{| URI := "/clusters/a"; Connected := true |};
                   {| URI := "/clusters/b"; Connected := false |};
                   {| URI := "/clusters/a"; Connected := true |}]
                  Service_new reachable_new)).
Defined.

(** *** Notifications and their cancellation *)

Lemma watch_start_inv cs :
  (forall c, c ∈ cancelled cs -> c < made cs) -> watching_inv (watch_start cs).
Proof.
  intros Hcs. split; [|split; [|split]]; simpl.
  - intros name c H. rewrite lookup_empty in H. discriminate H.
  - intros c ha H. apply elem_of_nil in H. destruct H.
  - apply NoDup_nil_2.
  - exact Hcs.
Qed.

Lemma cancelPendingRequest_inv name w :
  watching_inv w -> watching_inv (cancelPendingRequest name w).
Proof.
  intros (W1 & W2 & W3 & W4). unfold cancelPendingRequest.
  destruct (pendingRequests w !! name) as [c0|] eqn:Hc;
    [|exact (conj W1 (conj W2 (conj W3 W4)))].
  split; [|split; [|split]]; simpl; try assumption.
  intros c [->%elem_of_singleton|H]%elem_of_union; [|exact (W4 _ H)].
  destruct (W1 _ _ Hc) as (ha & Hin & _). exact (W2 _ _ Hin).
Qed.

Lemma watch_select_inv w sig w' :
  watching_inv w -> watch_select w sig = inl w' -> watching_inv w'.
Proof.
  intros W. destruct sig as [event|event|err|err|]; try discriminate; simpl.
  - destruct (Type_ event); try (intros [= <-]; exact W).
    destruct (Resource_ event) as [[ha|n]|]; try discriminate.
    intros [= <-]. destruct W as (W1 & W2 & W3 & W4).
    split; [|split; [|split]]; simpl.
    + intros name c H. apply lookup_insert_Some in H as [[<- <-]|[_ H]].
      * exists ha. split; [|reflexivity].
        apply elem_of_app. right. apply list_elem_of_singleton. reflexivity.
      * destruct (W1 _ _ H) as (ha0 & Hin & Hn). exists ha0.
        split; [apply elem_of_app; left; exact Hin | exact Hn].
    + intros c ha0 [H|[= -> ->]%list_elem_of_singleton]%elem_of_app; [|lia].
      specialize (W2 _ _ H). lia.
    + rewrite fmap_app. apply NoDup_app. split; [exact W3|].
      split; [|apply NoDup_singleton].
      intros c Hin Heq%list_elem_of_singleton. simpl in Heq. subst c.
      apply list_elem_of_fmap in Hin as ([c' ha0] & Heq & Hin).
      simpl in Heq. subst c'. specialize (W2 _ _ Hin). lia.
    + intros c H. specialize (W4 _ H). lia.
  - destruct (Type_ event); try (intros [= <-]; exact W).
    + destruct (Resource_ event) as [[ha|n]|]; try discriminate.
      destruct (State ha); intros [= <-];
        auto using cancelPendingRequest_inv.
    + destruct (Resource_ event) as [r|]; [|discriminate].
      intros [= <-]. apply cancelPendingRequest_inv. exact W.
Qed.

Lemma watch_loop_inv sigs w w' :
  watching_inv w -> watch_loop w sigs = inl w' -> watching_inv w'.
Proof.
  revert w. induction sigs as [|sig sigs IH]; intros w W; simpl.
  - intros [= <-]. exact W.
  - destruct (watch_select w sig) as [w1|] eqn:H1; [|discriminate].
    apply IH. eapply watch_select_inv; eassumption.
Qed.

Lemma terminal_resolution_select w name res :
  terminal_resolution name res ->
  watch_select w res = inl (cancelPendingRequest name w).
Proof.
  intros [ha Hn Hs | ha Hn Hs | r Hn]; simpl; try rewrite Hs; rewrite Hn;
    reflexivity.
Qed.

Lemma NoDup_fst_functional {A B} (l : list (A * B)) (x : A) (y1 y2 : B) :
  NoDup l.*1 -> (x, y1) ∈ l -> (x, y2) ∈ l -> y1 = y2.
Proof.
  intros Hnd H1 H2.
  apply list_elem_of_lookup in H1 as [i1 H1].
  apply list_elem_of_lookup in H2 as [i2 H2].
  assert (Hi : i1 = i2).
  { eapply NoDup_lookup; [exact Hnd| |];
      rewrite list_lookup_fmap; [rewrite H1|rewrite H2]; reflexivity. }
  subst i2. congruence.
Qed.

(** X23: in a watch loop started afresh, a terminal resolution event for
    one request cancels no notification of any other request: a
    notification started for a request of another name is cancelled
    after the event only if it was cancelled before. *)
Theorem resolution_spares_other_requests (cs : contexts) (sigs : list signal)
  (w w' : watching) (name : string) (res : signal)
  (c : nat) (ha : HeadlessAuthentication) :
  (forall c, c ∈ cancelled cs -> c < made cs) ->
  watch_loop (watch_start cs) sigs = inl w ->
  terminal_resolution name res ->
  watch_select w res = inl w' ->
  (c, ha) ∈ sending w ->
  Name ha <> name ->
  c ∈ cancelled (ctxs w') ->
  c ∈ cancelled (ctxs w).
Proof.
  intros Hcs Hrun Hres Hsel Hin Hne Hc.
  pose proof (watch_loop_inv _ _ _ (watch_start_inv _ Hcs) Hrun)
    as (W1 & W2 & W3 & W4).
  rewrite (terminal_resolution_select w name res Hres) in Hsel.
  injection Hsel as <-. unfold cancelPendingRequest in Hc.
  destruct (pendingRequests w !! name) as [c0|] eqn:Hreg; [|exact Hc].
  simpl in Hc. apply elem_of_union in Hc as [->%elem_of_singleton|Hc]; [|exact Hc].
  exfalso. destruct (W1 _ _ Hreg) as (ha0 & Hin0 & Hn0).
  apply Hne. rewrite <- Hn0. f_equal.
  exact (NoDup_fst_functional _ _ _ _ W3 Hin Hin0).
Qed.

Lemma resolution_spares_other_requests_witness :
  watch_loop (watch_start no_contexts)
    [pending_put (request1 STATE_PENDING); pending_put request2]
  = inl two_requests
  /\ (1 ∈ cancelled (ctxs (cancelPendingRequest "request-1" two_requests)) ->
      1 ∈ cancelled (ctxs two_requests)).
Proof.
  split; [vm_compute; reflexivity|].
  apply (resolution_spares_other_requests no_contexts
           [pending_put (request1 STATE_PENDING); pending_put request2]
           two_requests (cancelPendingRequest "request-1" two_requests)
           "request-1" (resolution_put (request1 STATE_APPROVED)) 1 request2).
  - intros c Hc. apply elem_of_empty in Hc. destruct Hc.
  - vm_compute. reflexivity.
  - apply terminal_approved; reflexivity.
  - reflexivity.
  - right. left.
  - discriminate.
Defined.

(** X24: a second pending put for a request replaces the cancel function
    registered by the first: a later terminal resolution cancels the
    notification started last, and the one started first is not
    cancelled by it. *)
Theorem second_pending_put_orphans_first (w : watching)
  (ha ha' : HeadlessAuthentication) (res : signal) :
  watching_inv w ->
  Name ha' = Name ha ->
  terminal_resolution (Name ha) res ->
  exists w',
    watch_loop w [pending_put ha; pending_put ha'; res] = inl w'
    /\ (made (ctxs w), ha) ∈ sending w'
    /\ (S (made (ctxs w)), ha') ∈ sending w'
    /\ pendingRequests w' !! Name ha = Some (S (made (ctxs w)))
    /\ S (made (ctxs w)) ∈ cancelled (ctxs w')
    /\ made (ctxs w) ∉ cancelled (ctxs w').
Proof.
  intros (_ & _ & _ & W4) Hn Hres. simpl.
  rewrite (terminal_resolution_select _ _ _ Hres).
  eexists. split; [reflexivity|].
  unfold cancelPendingRequest, addPendingRequest. simpl.
  rewrite Hn, lookup_insert_eq. simpl.
  split; [|split; [|split; [|split]]].
  - rewrite !elem_of_app, !list_elem_of_singleton. auto.
  - rewrite !elem_of_app, !list_elem_of_singleton. auto.
  - apply lookup_insert_eq.
  - apply elem_of_union. left. apply elem_of_singleton. reflexivity.
  - intros [H%elem_of_singleton|H]%elem_of_union; [lia|].
    specialize (W4 _ H). lia.
Qed.

Lemma second_pending_put_orphans_first_witness :
  watching_inv (watch_start no_contexts)
  /\ exists w',
       watch_loop (watch_start no_contexts)
         [pending_put (request1 STATE_PENDING);
          pending_put (request1 STATE_PENDING);
          resolution_put (request1 STATE_APPROVED)] = inl w'
       /\ (made (ctxs (watch_start no_contexts)), request1 STATE_PENDING) ∈ sending w'
       /\ (S (made (ctxs (watch_start no_contexts))), request1 STATE_PENDING)
          ∈ sending w'
       /\ pendingRequests w' !! Name (request1 STATE_PENDING)
          = Some (S (made (ctxs (watch_start no_contexts))))
       /\ S (made (ctxs (watch_start no_contexts))) ∈ cancelled (ctxs w')
       /\ made (ctxs (watch_start no_contexts)) ∉ cancelled (ctxs w').
Proof.
  assert (W : watching_inv (watch_start no_contexts)).
  { apply watch_start_inv. intros c Hc. apply elem_of_empty in Hc. destruct Hc. }
  split; [exact W|].
  apply (second_pending_put_orphans_first (watch_start no_contexts)
           (request1 STATE_PENDING) (request1 STATE_PENDING)
           (resolution_put (request1 STATE_APPROVED)) W eq_refl
           (terminal_approved _ (request1 STATE_APPROVED) eq_refl eq_refl)).
Defined.

(** X25: a terminal resolution that is processed before the pending put
    of its request is lost: with nothing registered for the request it
    cancels nothing, and the notification the pending put then starts is
    registered and not cancelled. *)
Theorem resolution_before_pending_put (w : watching)
  (ha : HeadlessAuthentication) (res : signal) :
  watching_inv w ->
  pendingRequests w !! Name ha = None ->
  terminal_resolution (Name ha) res ->
  exists w',
    watch_loop w [res; pending_put ha] = inl w'
    /\ cancelled (ctxs w') = cancelled (ctxs w)
    /\ pendingRequests w' !! Name ha = Some (made (ctxs w))
    /\ (made (ctxs w), ha) ∈ sending w'
    /\ made (ctxs w) ∉ cancelled (ctxs w').
Proof.
  intros (_ & _ & _ & W4) Hnone Hres. simpl.
  rewrite (terminal_resolution_select _ _ _ Hres).
  unfold cancelPendingRequest. rewrite Hnone. simpl.
  eexists. split; [reflexivity|]. simpl.
  split; [reflexivity|]. split; [apply lookup_insert_eq|]. split.
  - rewrite elem_of_app, list_elem_of_singleton. auto.
  - intros H. specialize (W4 _ H). lia.
Qed.

Lemma resolution_before_pending_put_witness :
  watching_inv (watch_start no_contexts)
  /\ exists w',
       watch_loop (watch_start no_contexts)
         [resolution_delete (ResourceHeader "request-1");
          pending_put (request1 STATE_PENDING)] = inl w'
       /\ cancelled (ctxs w') = cancelled (ctxs (watch_start no_contexts))
       /\ pendingRequests w' !! Name (request1 STATE_PENDING)
          = Some (made (ctxs (watch_start no_contexts)))
       /\ (made (ctxs (watch_start no_contexts)), request1 STATE_PENDING)
          ∈ sending w'
       /\ made (ctxs (watch_start no_contexts)) ∉ cancelled (ctxs w').
Proof.
  assert (W : watching_inv (watch_start no_contexts)).
  { apply watch_start_inv. intros c Hc. apply elem_of_empty in Hc. destruct Hc. }
  split; [exact W|].
  apply (resolution_before_pending_put (watch_start no_contexts)
           (request1 STATE_PENDING)
           (resolution_delete (ResourceHeader "request-1")) W eq_refl
           (terminal_deleted _ (ResourceHeader "request-1") eq_refl)).
Defined.

Lemma watch_select_sending w sig w' :
  watch_select w sig = inl w' ->
  sending w' = sending w ++ zip [made (ctxs w)] (pending_puts [sig])
  /\ made (ctxs w') = made (ctxs w) + length (pending_puts [sig]).
Proof.
  destruct sig as [[ty res]|event|err|err|]; try discriminate; simpl.
  - destruct ty; simpl;
      try (intros [= <-]; rewrite app_nil_r; split; [reflexivity|lia]).
    destruct res as [[ha|n]|]; simpl; try discriminate.
    intros [= <-]. simpl. split; [reflexivity|lia].
  - intros H. rewrite app_nil_r, Nat.add_0_r.
    destruct (Type_ event); try (injection H as <-; split; reflexivity).
    + destruct (Resource_ event) as [[ha|n]|]; try discriminate.
      destruct (State ha); injection H as <-; unfold cancelPendingRequest;
        try (split; reflexivity);
        destruct (pendingRequests w !! Name ha); split; reflexivity.
    + destruct (Resource_ event) as [r|]; [|discriminate].
      injection H as <-. unfold cancelPendingRequest.
      destruct (pendingRequests w !! GetName r); split; reflexivity.
Qed.

Lemma pending_puts_cons sig sigs :
  pending_puts (sig :: sigs) = pending_puts [sig] ++ pending_puts sigs.
Proof.
  unfold pending_puts. change (sig :: sigs) with ([sig] ++ sigs).
  apply omap_app.
Qed.

Lemma pending_puts_single sig : length (pending_puts [sig]) <= 1.
Proof.
  unfold pending_puts. simpl.
  match goal with |- context [match ?x with _ => _ end] => destruct x end;
    simpl; lia.
Qed.

(** X26: a running watch loop starts exactly one notification for each
    pending put event that carries a headless authentication, in the
    order of the events, each under a context of its own, numbered on
    from the contexts made before; no other signal starts one. *)
Theorem notifications_one_per_pending_put (sigs : list signal) (w w' : watching) :
  watch_loop w sigs = inl w' ->
  sending w' = sending w
               ++ zip (seq (made (ctxs w)) (length (pending_puts sigs)))
                      (pending_puts sigs)
  /\ made (ctxs w') = made (ctxs w) + length (pending_puts sigs).
Proof.
  revert w. induction sigs as [|sig sigs IH]; intros w; cbn [watch_loop].
  - intros [= <-]. simpl. rewrite app_nil_r. split; [reflexivity|lia].
  - destruct (watch_select w sig) as [w1|] eqn:H1; [|discriminate].
    intros Hrun. destruct (IH _ Hrun) as [IH1 IH2].
    destruct (watch_select_sending _ _ _ H1) as [S1 S2].
    rewrite pending_puts_cons, length_app.
    pose proof (pending_puts_single sig) as Hle.
    rewrite IH1, IH2, S1, S2. split; [|lia].
    rewrite <- app_assoc. f_equal.
    destruct (pending_puts [sig]) as [|ha [|ha2 l]] eqn:Hp; simpl in *; [| |lia].
    + rewrite Nat.add_0_r. reflexivity.
    + rewrite Nat.add_1_r. reflexivity.
Qed.

Lemma notifications_one_per_pending_put_witness :
  watch_loop (watch_start no_contexts)
    [pending_put (request1 STATE_PENDING);
     resolution_put (request1 STATE_DENIED)] = inl request1_denied
  /\ sending request1_denied = [(0, request1 STATE_PENDING)]
  /\ made (ctxs request1_denied) = 1.
Proof.
  split; [vm_compute; reflexivity|].
  apply (notifications_one_per_pending_put
           [pending_put (request1 STATE_PENDING);
            resolution_put (request1 STATE_DENIED)]
           (watch_start no_contexts) request1_denied eq_refl).
Defined.

(** X27: terminal resolution events for one request are idempotent: once
    one has been processed, another one for the same request (the delete
    that follows an approval, say) changes nothing. *)
Theorem repeated_resolution_changes_nothing (w w1 : watching) (name : string)
  (res res' : signal) :
  terminal_resolution name res ->
  terminal_resolution name res' ->
  watch_select w res = inl w1 ->
  watch_select w1 res' = inl w1.
Proof.
  intros Hres Hres' Hsel.
  rewrite (terminal_resolution_select _ _ _ Hres) in Hsel. injection Hsel as <-.
  rewrite (terminal_resolution_select _ _ _ Hres'). f_equal.
  unfold cancelPendingRequest.
  destruct (pendingRequests w !! name) as [c|] eqn:Hc; simpl; rewrite Hc;
    [|reflexivity].
  unfold cancel. simpl. f_equal. f_equal.
  rewrite (assoc_L (∪)), (union_idemp_L {[c]}). reflexivity.
Qed.

Lemma repeated_resolution_changes_nothing_witness :
  watch_select request1_denied (resolution_delete (ResourceHeader "request-1"))
  = inl request1_denied.
Proof.
  assert (H : watch_select
                {| pendingRequests := {["request-1" := 0]};
                   ctxs := {| made := 1; cancelled := ∅ |};
                   sending := [(0, request1 STATE_PENDING)] |}
                (resolution_put (request1 STATE_DENIED))
              = inl request1_denied)
    by (vm_compute; reflexivity).
  exact (repeated_resolution_changes_nothing _ request1_denied "request-1"
           (resolution_put (request1 STATE_DENIED))
           (resolution_delete (ResourceHeader "request-1"))
           (terminal_denied _ (request1 STATE_DENIED) eq_refl eq_refl)
           (terminal_deleted _ (ResourceHeader "request-1") eq_refl)
           H).
Defined.

End DaemonFacts.
